(** * amazonScraper: the spider, its settings and the crawl policies

    A shallow embedding of [amazonScraper/spiders/amazonSpider.py] (the
    [AmazonSpider] class: class attributes, [start_requests], [parse],
    [parse_product], [errback], [spider_closed]) and of the item schema of
    [amazonScraper/items.py], followed by the crawl policies the
    specification describes around it (retry, response cache).

    Python strings are modelled as [string], a sequence of UTF-8 bytes.
    Python dictionaries with string keys are [gmap string _].  The
    interpreter state a callback can touch (the [random] module, the
    attribute [self.total_items], the requests handed to the engine) is
    threaded explicitly through a small state-and-exception monad.  Calls
    to the logger write to the log only and are left out. *)

From Stdlib Require Import ZArith QArith List String Ascii Bool Lia.
From stdpp Require Import base option list gmap strings fin_maps.

Import ListNotations.
Local Set Warnings "-register-all".
Local Open Scope string_scope.
Local Open Scope nat_scope.

(* ===================================================================== *)
(** ** Python strings *)
(* ===================================================================== *)

Module PyStr.

(** The double quote, for the selector literals that contain one. *)
Definition dq : string := String (ascii_of_nat 34) EmptyString.

(** Truth value of a [str] ([not s] is [negb (truthy s)]). *)
Definition truthy (s : string) : bool :=
  match s with
  | EmptyString => false
  | String _ _ => true
  end.

(** Truth value of an [Optional[str]]: [None] and [''] are both false. *)
Definition truthy_opt (o : option string) : bool :=
  match o with
  | None => false
  | Some s => truthy s
  end.

Definition bytes (l : list nat) : string :=
  string_of_list_ascii (map ascii_of_nat l).

(** The characters for which [str.isspace] holds, as UTF-8 byte
    sequences: U+0009..U+000D, U+001C..U+0020, U+0085, U+00A0, U+1680,
    U+2000..U+200A, U+2028, U+2029, U+202F, U+205F, U+3000. *)
Definition whitespace : list string :=
  map bytes
    [ [9]; [10]; [11]; [12]; [13]; [28]; [29]; [30]; [31]; [32];
      [194; 133]; [194; 160]; [225; 154; 128];
      [226; 128; 128]; [226; 128; 129]; [226; 128; 130]; [226; 128; 131];
      [226; 128; 132]; [226; 128; 133]; [226; 128; 134]; [226; 128; 135];
      [226; 128; 136]; [226; 128; 137]; [226; 128; 138];
      [226; 128; 168]; [226; 128; 169]; [226; 128; 175];
      [226; 129; 159]; [227; 128; 128] ].

Definition rev_string (s : string) : string :=
  string_of_list_ascii (rev (list_ascii_of_string s)).

(** Length in bytes of the first pattern of [pats] that starts [s]
    (0 when none does). *)
Fixpoint match_len (pats : list string) (s : string) : nat :=
  match pats with
  | [] => 0
  | p :: pats' =>
      if String.prefix p s then String.length p else match_len pats' s
  end.

(** Drops every leading character that is one of [pats]; [skip] counts
    the bytes of the current character still to drop. *)
Fixpoint drop_leading (pats : list string) (skip : nat) (s : string) : string :=
  match s with
  | EmptyString => EmptyString
  | String c s' =>
      match skip with
      | S k => drop_leading pats k s'
      | O =>
          match match_len pats s with
          | O => s
          | S k => drop_leading pats k s'
          end
      end
  end.

Definition lstrip (s : string) : string := drop_leading whitespace 0 s.

Definition rstrip (s : string) : string :=
  rev_string (drop_leading (map rev_string whitespace) 0 (rev_string s)).

(** [str.strip()] with no argument. *)
Definition strip (s : string) : string := rstrip (lstrip s).

(** Concatenation of string pieces (f-strings, literals with quotes). *)
Definition cat (l : list string) : string := fold_right String.append EmptyString l.

End PyStr.

(* ===================================================================== *)
(** ** JSON values, as [json.loads] returns them *)
(* ===================================================================== *)

Module Json.

Inductive value : Type :=
| JNull
| JBool (b : bool)
| JNum (literal : string)
| JStr (s : string)
| JArr (items : list value)
| JObj (members : list (string * value)).

(** [d[key]] on a dict: the value, or [None] for [KeyError]. *)
Fixpoint assoc (key : string) (members : list (string * value)) : option value :=
  match members with
  | [] => None
  | (k, v) :: rest => if String.eqb k key then Some v else assoc key rest
  end.

(** [data.get(key, [])]: an [AttributeError] ([None]) unless [data] is a
    dict. *)
Definition get_or_empty (key : string) (data : value) : option value :=
  match data with
  | JObj members =>
      Some (match assoc key members with Some v => v | None => JArr [] end)
  | _ => None
  end.

(** [for i in v]: the elements of a list, the keys of a dict, the
    characters of a string (one string per byte here; no element of a
    string supports the subscript below, so the split does not matter);
    [None] for the [TypeError] of a value that is not iterable. *)
Definition iterate (v : value) : option (list value) :=
  match v with
  | JArr items => Some items
  | JObj members => Some (map (fun kv => JStr (fst kv)) members)
  | JStr s =>
      Some (map (fun c => JStr (String c EmptyString)) (list_ascii_of_string s))
  | _ => None
  end.

(** [i[key]] with a string key: defined on dicts that have the key,
    [None] for the [KeyError] or [TypeError] otherwise. *)
Definition subscript (key : string) (i : value) : option value :=
  match i with
  | JObj members => assoc key members
  | _ => None
  end.

End Json.

(* ===================================================================== *)
(** ** Requests, responses, items *)
(* ===================================================================== *)

(** The bound methods a [Request] can carry as callback or errback. *)
Inductive Handler : Type :=
| h_parse
| h_parse_product
| h_errback.

Global Instance Handler_eq_dec : EqDecision Handler.
Proof. solve_decision. Defined.

(** [scrapy.http.Request] as the spider builds it. *)
Record Request : Type := mkRequest {
  req_url : string;
  req_headers : gmap string string;
  req_meta : gmap string string;
  req_callback : Handler;
  req_errback : Handler;
}.

(** A node selected on a page; [sel_css_get q] is [node.css(q).get()]. *)
Record Selector : Type := mkSelector {
  sel_css_get : string -> option string;
}.

(** [scrapy.http.Response], through the calls the spider makes on it.
    [urljoin rel] is [response.urljoin(rel)], [None] when it raises
    [ValueError] (an href the URL parser rejects). *)
Record Response : Type := mkResponse {
  url : string;
  urljoin : string -> option string;
  css : string -> list Selector;
  css_get : string -> option string;
  css_getall : string -> list string;
  xpath_get : string -> option string;
  xpath_re_first : string -> string -> option string;
}.

(** The dictionary [parse_product] returns; its keys are the fields of
    [AmazonItem] in [items.py]. *)
Record Item : Type := mkItem {
  asin : string;
  title : string;
  price : string;
  rating : string;
  reviews : string;
  features : list string;
  description : string;
  images : list Json.value;
  item_url : string;
}.

(* ===================================================================== *)
(** ** Interpreter state and the effect monad *)
(* ===================================================================== *)

Inductive Exc : Type :=
| IndexError
| ValueError
| CloseSpider (reason : string).

(** [rng] is the stream of raw draws of the [random] module;
    [total_items] is [self.total_items]; [scheduled] collects, in order,
    the requests a callback has yielded to the engine. *)
Record World : Type := mkWorld {
  rng : nat -> nat;
  total_items : nat;
  scheduled : list Request;
}.

Inductive Res (A : Type) : Type :=
| Ok (a : A) (w : World)
| Raise (e : Exc) (w : World).
Arguments Ok {A} a w.
Arguments Raise {A} e w.

Definition M (A : Type) : Type := World -> Res A.

Definition ret {A} (a : A) : M A := fun w => Ok a w.

Definition bind {A B} (m : M A) (k : A -> M B) : M B :=
  fun w =>
    match m w with
    | Ok a w' => k a w'
    | Raise e w' => Raise e w'
    end.

Notation "'do' x <- m ; k" := (bind m (fun x => k))
  (at level 10, x name, m at level 100, k at level 200).

Definition raise {A} (e : Exc) : M A := fun w => Raise e w.

(** The result of a library call that returns a value or raises
    [ValueError]. *)
Definition or_value_error {A} (o : option A) : M A :=
  fun w =>
    match o with
    | Some a => Ok a w
    | None => Raise ValueError w
    end.

(** [random.choice(seq)]: [IndexError] on an empty sequence, else the
    element at a fresh draw reduced below [len(seq)]. *)
Definition choice {A} (seq : list A) : M A :=
  fun w =>
    match seq with
    | [] => Raise IndexError w
    | d :: _ =>
        Ok (nth (rng w 0 mod length seq) seq d)
           (mkWorld (fun i => rng w (S i)) (total_items w) (scheduled w))
    end.

(** [yield request]: the engine receives the request. *)
Definition yield (r : Request) : M unit :=
  fun w => Ok tt (mkWorld (rng w) (total_items w) (scheduled w ++ [r])).

(** [self.total_items += 1]; returns the new count. *)
Definition count_item : M nat :=
  fun w =>
    Ok (S (total_items w)) (mkWorld (rng w) (S (total_items w)) (scheduled w)).

Definition read_total_items : M nat := fun w => Ok (total_items w) w.

(** [w'] differs from [w] only in the random stream and in the requests
    [reqs] appended to the engine's queue. *)
Definition extends (w : World) (reqs : list Request) (w' : World) : Prop :=
  total_items w' = total_items w /\ scheduled w' = (scheduled w ++ reqs)%list.

(* ===================================================================== *)
(** ** The spider: class attributes *)
(* ===================================================================== *)

Module AmazonSpider.

Import PyStr.

Definition name : string := "amazon_supercharged".

Definition allowed_domains : list string := ["amazon.com"].

(** [keyword = getattr(scrapy.utils.project, 'keyword', 'laptops')],
    evaluated once, when the class body runs; [project_ns] holds the
    attributes of that module. *)
Definition keyword (project_ns : gmap string string) : string :=
  default "laptops" (project_ns !! "keyword").

(** [start_urls = [f"https://www.amazon.com/s?k={keyword}"]], evaluated
    in the class body right after [keyword]. *)
Definition start_urls (project_ns : gmap string string) : list string :=
  [cat ["https://www.amazon.com/s?k="; keyword project_ns]].

Definition USER_AGENTS : list string :=
  [ cat ["Mozilla/5.0 (Windows NT 10.0; Win64; x64) AppleWebKit/537.36 ";
         "(KHTML, like Gecko) Chrome/100.0.4896.127 Safari/537.36"];
    cat ["Mozilla/5.0 (Macintosh; Intel Mac OS X 10_15_7) AppleWebKit/605.1.15 ";
         "(KHTML, like Gecko) Version/15.1 Safari/605.1.15"];
    "Mozilla/5.0 (X11; Ubuntu; Linux x86_64; rv:92.0) Gecko/20100101 Firefox/92.0" ].

Definition PROXIES : list string := [].

(** [custom_settings]; delays and timeouts, in seconds, are rationals
    (the float 0.5 is exactly 1/2), [None] disables a middleware. *)
Record Settings : Type := mkSettings {
  AUTOTHROTTLE_ENABLED : bool;
  AUTOTHROTTLE_START_DELAY : Q;
  AUTOTHROTTLE_MAX_DELAY : Q;
  AUTOTHROTTLE_DEBUG : bool;
  HTTPCACHE_ENABLED : bool;
  HTTPCACHE_EXPIRATION_SECS : Z;
  CONCURRENT_REQUESTS : nat;
  DOWNLOAD_DELAY : Q;
  RANDOMIZE_DOWNLOAD_DELAY : bool;
  RETRY_ENABLED : bool;
  RETRY_TIMES : nat;
  DOWNLOAD_TIMEOUT : Q;
  LOG_LEVEL : string;
  DOWNLOADER_MIDDLEWARES : list (string * option nat);
  ITEM_PIPELINES : list (string * option nat);
}.

Definition custom_settings : Settings :=
  {| AUTOTHROTTLE_ENABLED := true;
     AUTOTHROTTLE_START_DELAY := 1;
     AUTOTHROTTLE_MAX_DELAY := 10;
     AUTOTHROTTLE_DEBUG := false;
     HTTPCACHE_ENABLED := true;
     HTTPCACHE_EXPIRATION_SECS := 86400;
     CONCURRENT_REQUESTS := 8;
     DOWNLOAD_DELAY := 1 # 2;
     RANDOMIZE_DOWNLOAD_DELAY := true;
     RETRY_ENABLED := true;
     RETRY_TIMES := 5;
     DOWNLOAD_TIMEOUT := 15;
     LOG_LEVEL := "DEBUG";
     DOWNLOADER_MIDDLEWARES :=
       [ ("scrapy.downloadermiddlewares.useragent.UserAgentMiddleware", None);
         ("scrapy.downloadermiddlewares.retry.RetryMiddleware", Some 90);
         ("scrapy.downloadermiddlewares.httpcache.HttpCacheMiddleware", Some 300);
         ("scrapy.downloadermiddlewares.downloadtimeout.DownloadTimeoutMiddleware",
          Some 350) ];
     ITEM_PIPELINES := [] |}.

(** The class as the methods read it through [self]: the two rotation
    lists and the seed URLs.  [source] is the class of the repository;
    other values stand for a class whose lists were edited. *)
Record Class : Type := mkClass {
  cls_USER_AGENTS : list string;
  cls_PROXIES : list string;
  cls_start_urls : list string;
}.

Definition source (project_ns : gmap string string) : Class :=
  {| cls_USER_AGENTS := USER_AGENTS;
     cls_PROXIES := PROXIES;
     cls_start_urls := start_urls project_ns |}.

(** What [__init__] leaves on the instance.  The spider's own
    [__init__] sets [total_items = 0] (and [start_time], read only by
    log messages); its docstring says that the keyword is overridden
    with [-a keyword=...], an argument that reaches [__init__] in
    [kwargs] and that the base constructor stores as the instance
    attribute [keyword].  [start_urls] is not recomputed: the class
    attribute stays in force. *)
Record Instance : Type := mkInstance {
  self_keyword : string;
  self_class : Class;
}.

Definition init (project_ns : gmap string string) (cls : Class)
    (kwargs : gmap string string) : Instance :=
  {| self_keyword := default (keyword project_ns) (kwargs !! "keyword");
     self_class := cls |}.

(** The interpreter state right after [__init__]. *)
Definition init_world (draws : nat -> nat) : World :=
  {| rng := draws; total_items := 0; scheduled := [] |}.

(** *** [start_requests] *)

Definition seed_request (self : Instance) (url : string) : M unit :=
  do ua <- choice (cls_USER_AGENTS (self_class self));
  do meta <- match cls_PROXIES (self_class self) with
             | [] => ret (∅ : gmap string string)
             | _ :: _ =>
                 do proxy <- choice (cls_PROXIES (self_class self));
                 ret ({[ "proxy" := proxy ]} : gmap string string)
             end;
  yield {| req_url := url;
           req_headers := {[ "User-Agent" := ua ]};
           req_meta := meta;
           req_callback := h_parse;
           req_errback := h_errback |}.

(** [for x in l: body], for a body that yields and falls through. *)
Fixpoint for_each {A} (body : A -> M unit) (l : list A) : M unit :=
  match l with
  | [] => ret tt
  | x :: rest => do u <- body x; for_each body rest
  end.

Definition start_requests (self : Instance) : M unit :=
  for_each (seed_request self) (cls_start_urls (self_class self)).

(** *** [parse] *)

Definition q_result_blocks : string :=
  cat ["div[data-component-type="; dq; "s-search-result"; dq; "]"].
Definition q_block_href : string := "h2 a::attr(href)".
Definition q_next_page : string := "ul.a-pagination li.a-last a::attr(href)".

Section WithRequestClass.

(** [scrapy.Request(url, ...)] checks and escapes the URL it is given:
    [Request_url u] is the URL the new request holds, [None] when the
    constructor raises [ValueError] (a URL without a scheme).  The class
    belongs to the framework. *)
Variable Request_url : string -> option string.

(** The body of [for block in results]: the href is joined, then the
    user agent is drawn, then the request is built and yielded. *)
Definition parse_block (self : Instance) (response : Response)
    (block : Selector) : M unit :=
  let rel := sel_css_get block q_block_href in
  if negb (truthy_opt rel) then ret tt
  else
    do prod_url <- or_value_error (urljoin response (default EmptyString rel));
    do ua <- choice (cls_USER_AGENTS (self_class self));
    do held <- or_value_error (Request_url prod_url);
    yield {| req_url := held;
             req_headers := {[ "User-Agent" := ua ]};
             req_meta := {[ "referer" := url response ]};
             req_callback := h_parse_product;
             req_errback := h_errback |}.

Definition parse (self : Instance) (response : Response) : M unit :=
  let results := css response q_result_blocks in
  do u <- for_each (parse_block self response) results;
  let next_page := css_get response q_next_page in
  if truthy_opt next_page then
    do next_url <- or_value_error (urljoin response (default EmptyString next_page));
    do ua <- choice (cls_USER_AGENTS (self_class self));
    do held <- or_value_error (Request_url next_url);
    yield {| req_url := held;
             req_headers := {[ "User-Agent" := ua ]};
             req_meta := ∅;
             req_callback := h_parse;
             req_errback := h_errback |}
  else ret tt.

End WithRequestClass.

(** *** [parse_product] *)

Definition is_asin_char (c : ascii) : bool :=
  let n := nat_of_ascii c in
  ((65 <=? n) && (n <=? 90)) || ((48 <=? n) && (n <=? 57)).

(** The next [n] characters when all of them are in [[A-Z0-9]]. *)
Fixpoint take_asin (n : nat) (s : string) : option string :=
  match n with
  | O => Some EmptyString
  | S n' =>
      match s with
      | EmptyString => None
      | String c s' =>
          if is_asin_char c
          then option_map (String c) (take_asin n' s')
          else None
      end
  end.

Fixpoint drop_chars (n : nat) (s : string) : string :=
  match n, s with
  | S n', String _ s' => drop_chars n' s'
  | _, _ => s
  end.

(** [re.search(r'/dp/([A-Z0-9]{10})', s)]: group 1 of the leftmost
    match. *)
Fixpoint search_dp_asin (s : string) : option string :=
  let here :=
    if String.prefix "/dp/" s then take_asin 10 (drop_chars 4 s) else None in
  match here with
  | Some a => Some a
  | None =>
      match s with
      | EmptyString => None
      | String _ s' => search_dp_asin s'
      end
  end.

Definition q_asin : string :=
  cat ["//th[text()="; dq; "ASIN"; dq; "]/following-sibling::td/text()"].
Definition q_title : string :=
  cat ["//span[@id="; dq; "productTitle"; dq; "]/text()"].
Definition q_price : string :=
  cat ["//*[contains(@id,"; dq; "priceblock_"; dq; ")]/text()"].
Definition q_rating : string :=
  cat ["//span[@data-hook="; dq; "rating-out-of-text"; dq; "]/text()"].
Definition q_reviews : string :=
  cat ["//span[@id="; dq; "acrCustomerReviewText"; dq; "]/text()"].
Definition q_features : string := "#feature-bullets .a-list-item::text".
Definition q_desc : string :=
  cat ["//div[@id="; dq; "productDescription"; dq; "]//p/text()"].
Definition q_image_script : string :=
  cat ["//script[contains(.,"; dq; "ImageBlockATF"; dq; ")]/text()"].
Definition re_color_images : string :=
  cat [dq; "colorImages"; dq; ":(\{.*?\})"].

(** The inner function [extract]:
    [response.xpath(query).get(default='').strip()]. *)
Definition extract (response : Response) (query : string) : string :=
  strip (default EmptyString (xpath_get response query)).

(** [[i['large'] for i in data.get('initial', [])]]; [None] when any
    step raises. *)
Definition large_images (data : Json.value) : option (list Json.value) :=
  initial ← Json.get_or_empty "initial" data;
  items ← Json.iterate initial;
  mapM (Json.subscript "large") items.

Section WithJsonDecoder.

(** [json.loads]; [None] when it raises. *)
Variable json_loads : string -> option Json.value.

Definition product_images (response : Response) : list Json.value :=
  let js_raw := xpath_re_first response q_image_script re_color_images in
  if truthy_opt js_raw then
    match json_loads (default EmptyString js_raw) ≫= large_images with
    | Some imgs => imgs
    | None => []
    end
  else [].

Definition parse_product (response : Response) : M Item :=
  let asin :=
    match search_dp_asin (url response) with
    | Some group1 => group1
    | None => extract response q_asin
    end in
  let title := extract response q_title in
  let price := extract response q_price in
  let rating := extract response q_rating in
  let reviews := extract response q_reviews in
  let features := css_getall response q_features in
  let features := map strip (List.filter (fun f => truthy (strip f)) features) in
  let desc := extract response q_desc in
  let imgs := product_images response in
  let item :=
    {| asin := asin; title := title; price := price; rating := rating;
       reviews := reviews; features := features; description := desc;
       images := imgs; item_url := url response |} in
  do n <- count_item;
  ret item.

End WithJsonDecoder.

(** *** [errback] and [spider_closed] *)

(** [errback] only logs the URL of the failed request. *)
Definition errback (failed : Request) : M unit := ret tt.

Definition spider_closed : M unit :=
  do n <- read_total_items;
  if n =? 0 then raise (CloseSpider "No items scraped — stopping spider")
  else ret tt.

End AmazonSpider.

(* ===================================================================== *)
(** ** Retry policy and failure handling of the orchestrator *)
(* ===================================================================== *)

(** The repository configures retries ([RETRY_ENABLED], [RETRY_TIMES], the
    retry middleware in [DOWNLOADER_MIDDLEWARES]) and leaves the retry
    loop itself to the framework; the loop below follows the
    specification, the numbers come from [custom_settings]. *)
Module Retry.

Import AmazonSpider.

(** Modelled from the spec: the page kind tag of a CrawlRequest. *)
Inductive PageKind : Type := SearchResults | Product.

(** Modelled from the spec: CrawlRequest, immutable once dispatched
    except for the attempt count, which increments on retry. *)
Record CrawlRequest : Type := mkCrawlRequest {
  target : string;
  kind : PageKind;
  headers : gmap string string;
  proxy : option string;
  referer : option string;
  attempt : nat;
}.

(** Modelled from the spec: the error taxonomy
    TransportError{timeout|reset}, HTTPError{status}, ParseError. *)
Inductive ErrorKind : Type :=
| TransportTimeout
| TransportReset
| HTTPError (status : Z)
| ParseError.

(** Modelled from the spec: FetchOutcome, Success{response body, status,
    final URL} or Failure{error kind, originating request}. *)
Inductive FetchOutcome : Type :=
| Success (body : string) (status : Z) (final_url : string)
| Failure (error : ErrorKind) (origin : CrawlRequest).

(** Modelled from the spec: retryable failure kinds are transport-level
    timeout, connection reset, HTTP 5xx and HTTP 429; HTTP 4xx other
    than 429 and malformed-response parse errors are terminal. *)
Definition retryable (e : ErrorKind) : bool :=
  match e with
  | TransportTimeout => true
  | TransportReset => true
  | HTTPError status =>
      ((500 <=? status)%Z && (status <=? 599)%Z) || (status =? 429)%Z
  | ParseError => false
  end.

(** Modelled from the spec: [max_retries], the bound on re-attempts;
    its value is the repository's [RETRY_TIMES] when [RETRY_ENABLED]. *)
Definition max_retries (s : Settings) : nat :=
  if RETRY_ENABLED s then RETRY_TIMES s else 0.

(** Modelled from the spec: the result of [classify]. *)
Inductive Verdict : Type :=
| RetryAfterIncrement (again : CrawlRequest)
| Exhausted.

(** Modelled from the spec: the attempt count increments on retry. *)
Definition incremented (r : CrawlRequest) : CrawlRequest :=
  {| target := target r; kind := kind r; headers := headers r;
     proxy := proxy r; referer := referer r; attempt := S (attempt r) |}.

(** Modelled from the spec: the same request at attempt count [a]. *)
Definition with_attempt (r : CrawlRequest) (a : nat) : CrawlRequest :=
  {| target := target r; kind := kind r; headers := headers r;
     proxy := proxy r; referer := referer r; attempt := a |}.

(** Modelled from the spec: [classify(Failure)], bounded re-attempts of
    retryable failures, exhaustion otherwise. *)
Definition classify (s : Settings) (e : ErrorKind) (origin : CrawlRequest) : Verdict :=
  if retryable e && (attempt origin <? max_retries s)
  then RetryAfterIncrement (incremented origin)
  else Exhausted.

(** Modelled from the spec: CrawlSession counters. *)
Record CrawlSession : Type := mkSession {
  records_emitted : nat;
  requests_dispatched : nat;
  failures : nat;
}.

(** Modelled from the spec: the orchestrator's state, the frontier of
    pending requests and the session; [dispatch_log] records every
    dispatched request, oldest first. *)
Record Orchestrator : Type := mkOrchestrator {
  frontier : list CrawlRequest;
  session : CrawlSession;
  dispatch_log : list CrawlRequest;
}.

(** Modelled from the spec: what completion handling of a Success
    yields, the new frontier entries and the number of records. *)
Record Completion : Type := mkCompletion {
  discovered : list CrawlRequest;
  records : nat;
}.

Section Loop.

Variable settings : Settings.
(** The transport: the outcome of fetching a request. *)
Variable fetch : CrawlRequest -> FetchOutcome.
(** Completion handling of a successful fetch. *)
Variable complete : CrawlRequest -> string -> Completion.

(** Modelled from the spec: one turn of the dispatch loop.  Pop a
    request and fetch it; a Success enqueues what completion handling
    discovered; a Failure goes through [classify]: on retry the same
    request re-enters at the front of the frontier with its attempt
    count incremented, on exhaustion it is dropped and the failure
    counter incremented. *)
Definition step (o : Orchestrator) : Orchestrator :=
  match frontier o with
  | [] => o
  | r :: pending =>
      let dispatched := S (requests_dispatched (session o)) in
      let log := (dispatch_log o ++ [r])%list in
      match fetch r with
      | Success body _ _ =>
          let c := complete r body in
          {| frontier := (pending ++ discovered c)%list;
             session :=
               {| records_emitted := records_emitted (session o) + records c;
                  requests_dispatched := dispatched;
                  failures := failures (session o) |};
             dispatch_log := log |}
      | Failure e _ =>
          match classify settings e r with
          | RetryAfterIncrement again =>
              {| frontier := again :: pending;
                 session :=
                   {| records_emitted := records_emitted (session o);
                      requests_dispatched := dispatched;
                      failures := failures (session o) |};
                 dispatch_log := log |}
          | Exhausted =>
              {| frontier := pending;
                 session :=
                   {| records_emitted := records_emitted (session o);
                      requests_dispatched := dispatched;
                      failures := S (failures (session o)) |};
                 dispatch_log := log |}
          end
      end
  end.

(** Modelled from the spec: [n] turns of the dispatch loop. *)
Fixpoint steps (n : nat) (o : Orchestrator) : Orchestrator :=
  match n with
  | O => o
  | S n' => steps n' (step o)
  end.

End Loop.

(** Modelled from the spec: the orchestrator seeded with one request. *)
Definition seeded (r : CrawlRequest) : Orchestrator :=
  {| frontier := [r];
     session := {| records_emitted := 0; requests_dispatched := 0; failures := 0 |};
     dispatch_log := [] |}.

(** Modelled from the spec: the number of attempts of [url] among the
    dispatched requests. *)
Definition attempts_of (url : string) (o : Orchestrator) : nat :=
  length (List.filter (fun r => String.eqb (target r) url) (dispatch_log o)).

End Retry.

(* ===================================================================== *)
(** ** Response cache *)
(* ===================================================================== *)

(** The repository switches the framework's HTTP cache on and sets its
    expiration ([HTTPCACHE_ENABLED], [HTTPCACHE_EXPIRATION_SECS]); the
    store below follows the specification. *)
Module Cache.

Import AmazonSpider.

(** Modelled from the spec: CacheEntry {request key, cached response,
    stored-at timestamp, expiration}. *)
Record CacheEntry : Type := mkEntry {
  request_key : string;
  cached_response : string;
  stored_at : Z;
  expiration : Z;
}.

(** Modelled from the spec: the fixed TTL of the configuration surface;
    its value is the repository's [HTTPCACHE_EXPIRATION_SECS]. *)
Definition cache_ttl (s : Settings) : Z := HTTPCACHE_EXPIRATION_SECS s.

(** Modelled from the spec: [get(requestKey)], an entry is served only
    while [now - stored_at < expiration], an expired entry is absent. *)
Definition get (now : Z) (store : gmap string CacheEntry) (key : string)
    : option CacheEntry :=
  match store !! key with
  | Some e => if (now - stored_at e <? expiration e)%Z then Some e else None
  | None => None
  end.

(** Modelled from the spec: [put(requestKey, response)], stamped with
    the current time and the TTL; an older entry is overwritten. *)
Definition put (ttl now : Z) (store : gmap string CacheEntry) (key response : string)
    : gmap string CacheEntry :=
  <[ key := {| request_key := key; cached_response := response;
               stored_at := now; expiration := ttl |} ]> store.

(** Modelled from the spec: the cache in front of the transport, with
    the number of dispatches made so far. *)
Record Cached : Type := mkCached {
  store : gmap string CacheEntry;
  dispatches : nat;
}.

(** Modelled from the spec: the cache is consulted before dispatch; a
    hit short-circuits dispatch entirely, a miss dispatches and
    populates the cache with the fetched response. *)
Definition fetch_through (ttl : Z) (transport : string -> string) (now : Z)
    (key : string) (c : Cached) : string * Cached :=
  match get now (store c) key with
  | Some e => (cached_response e, c)
  | None =>
      let response := transport key in
      (response,
       {| store := put ttl now (store c) key response;
          dispatches := S (dispatches c) |})
  end.

End Cache.

(* ===================================================================== *)
(** ** The links of a search page and the requests of a callback *)
(* ===================================================================== *)

Module Links.

Import PyStr AmazonSpider.

(** A link: an href that was found and is not the empty string. *)
Definition link_of (href : option string) : option string :=
  match href with
  | Some s => if truthy s then Some s else None
  | None => None
  end.

(** The result blocks of a search page, in page order. *)
Definition result_blocks (response : Response) : list Selector :=
  css response q_result_blocks.

Definition block_href (block : Selector) : option string :=
  sel_css_get block q_block_href.

(** The product links of a search page, in page order. *)
Definition product_links (response : Response) : list string :=
  omap (fun block => link_of (block_href block)) (result_blocks response).

(** The next-page link of a search page. *)
Definition next_page_link (response : Response) : option string :=
  link_of (css_get response q_next_page).

(** A block carries an href when the selector finds the attribute. *)
Definition carries_href (block : Selector) : bool :=
  match block_href block with Some _ => true | None => false end.

(** A block carries a non-empty href. *)
Definition carries_link (block : Selector) : bool :=
  truthy_opt (block_href block).

(** The page kind a request is tagged with is its callback. *)
Definition is_product_request (r : Request) : bool :=
  match req_callback r with h_parse_product => true | _ => false end.

Definition is_search_request (r : Request) : bool :=
  match req_callback r with h_parse => true | _ => false end.

(** The requests the engine holds when a callback has run. *)
Definition requests_of {A} (res : Res A) : list Request :=
  match res with
  | Ok _ w => scheduled w
  | Raise _ w => scheduled w
  end.

(** The URL the request for a link holds: the href joined to the page
    URL, as the request class keeps it; [None] when either step raises. *)
Definition held_url (Request_url : string -> option string)
    (response : Response) (link : string) : option string :=
  match urljoin response link with
  | Some joined => Request_url joined
  | None => None
  end.

(** The product request [parse] builds for the URL [held], for a user
    agent. *)
Definition product_request (response : Response) (ua held : string) : Request :=
  {| req_url := held;
     req_headers := {[ "User-Agent" := ua ]};
     req_meta := {[ "referer" := url response ]};
     req_callback := h_parse_product;
     req_errback := h_errback |}.

(** The next-page request [parse] builds for the URL [held], for a user
    agent. *)
Definition next_page_request (response : Response) (ua held : string) : Request :=
  {| req_url := held;
     req_headers := {[ "User-Agent" := ua ]};
     req_meta := ∅;
     req_callback := h_parse;
     req_errback := h_errback |}.

End Links.

(* ===================================================================== *)
(** ** Concrete pages and classes used in the examples *)
(* ===================================================================== *)

Module Samples.

Import PyStr AmazonSpider Links.

Definition no_selector : Selector := {| sel_css_get := fun _ => None |}.

Definition block_with (href : option string) : Selector :=
  {| sel_css_get := fun q => if String.eqb q q_block_href then href else None |}.

(** A stand-in for [urljoin] on the hrefs of the examples: an href that
    opens a bracketed host and never closes it is rejected, a path is
    joined to the site root, anything else is taken as it is. *)
Definition site_urljoin (rel : string) : option string :=
  if String.prefix "//[" rel then None
  else if String.prefix "/" rel then Some ("https://www.amazon.com" ++ rel)
  else Some rel.

(** [needle in s]. *)
Fixpoint contains (needle s : string) : bool :=
  String.prefix needle s ||
  match s with
  | EmptyString => false
  | String _ s' => contains needle s'
  end.

(** A stand-in for the request class on the URLs of the examples: a URL
    that holds [://] is kept as it is, any other is rejected. *)
Definition strict_request (u : string) : option string :=
  if contains "://" u then Some u else None.

(** A search page of amazon.com with the given block hrefs and
    next-page href; relative links are joined to the site root. *)
Definition search_page (hrefs : list (option string)) (next : option string)
    : Response :=
  {| url := "https://www.amazon.com/s?k=laptops";
     urljoin := site_urljoin;
     css := fun q => if String.eqb q q_result_blocks then map block_with hrefs else [];
     css_get := fun q => if String.eqb q q_next_page then next else None;
     css_getall := fun _ => [];
     xpath_get := fun _ => None;
     xpath_re_first := fun _ _ => None |}.

(** A product page on which no selector finds anything, except the
    image script, which holds [raw]. *)
Definition bare_product_page (raw : option string) : Response :=
  {| url := "https://www.amazon.com/dp/B08N5WRWNW";
     urljoin := site_urljoin;
     css := fun _ => [];
     css_get := fun _ => None;
     css_getall := fun _ => [];
     xpath_get := fun _ => None;
     xpath_re_first :=
       fun q re =>
         if String.eqb q q_image_script && String.eqb re re_color_images
         then raw else None |}.

(** A decoder that rejects every text. *)
Definition reject_all : string -> option Json.value := fun _ => None.

(** The spider of the repository, started without arguments. *)
Definition plain_spider : Instance := init ∅ (source ∅) ∅.

(** The spider started with [-a keyword=phones]. *)
Definition phones_spider : Instance :=
  init ∅ (source ∅) {[ "keyword" := "phones" ]}.

(** The class with one proxy filled in. *)
Definition proxied_class : Class :=
  {| cls_USER_AGENTS := USER_AGENTS;
     cls_PROXIES := ["http://proxy1:8080"];
     cls_start_urls := start_urls ∅ |}.

Definition proxied_spider : Instance := init ∅ proxied_class ∅.

Definition zero_draws : nat -> nat := fun _ => 0.

(** A transport on which every fetch times out. *)
Definition always_times_out (r : Retry.CrawlRequest) : Retry.FetchOutcome :=
  Retry.Failure Retry.TransportTimeout r.

(** A transport on which every fetch answers 404. *)
Definition always_not_found (r : Retry.CrawlRequest) : Retry.FetchOutcome :=
  Retry.Failure (Retry.HTTPError 404) r.

Definition no_completion (r : Retry.CrawlRequest) (body : string) : Retry.Completion :=
  {| Retry.discovered := []; Retry.records := 0 |}.

Definition laptops_search : Retry.CrawlRequest :=
  {| Retry.target := "https://www.amazon.com/s?k=laptops";
     Retry.kind := Retry.SearchResults;
     Retry.headers := ∅; Retry.proxy := None; Retry.referer := None;
     Retry.attempt := 0 |}.

Definition phones_search : Retry.CrawlRequest :=
  {| Retry.target := "https://www.amazon.com/s?k=phones";
     Retry.kind := Retry.SearchResults;
     Retry.headers := ∅; Retry.proxy := None; Retry.referer := None;
     Retry.attempt := 0 |}.

(** A transport on which the laptops search always times out and every
    other fetch succeeds. *)
Definition laptops_time_out (r : Retry.CrawlRequest) : Retry.FetchOutcome :=
  if String.eqb (Retry.target r) (Retry.target laptops_search)
  then Retry.Failure Retry.TransportTimeout r
  else Retry.Success "<html>" 200 (Retry.target r).

(** A transport on which the laptops search answers 404 and every other
    fetch succeeds. *)
Definition laptops_not_found (r : Retry.CrawlRequest) : Retry.FetchOutcome :=
  if String.eqb (Retry.target r) (Retry.target laptops_search)
  then Retry.Failure (Retry.HTTPError 404) r
  else Retry.Success "<html>" 200 (Retry.target r).

(** An orchestrator in the middle of a crawl: the laptops search is
    next, the phones search is pending behind it. *)
Definition mid_crawl : Retry.Orchestrator :=
  {| Retry.frontier := [laptops_search; phones_search];
     Retry.session := {| Retry.records_emitted := 3;
                         Retry.requests_dispatched := 7;
                         Retry.failures := 1 |};
     Retry.dispatch_log := [phones_search] |}.

End Samples.

(* ===================================================================== *)
(** ** Vocabulary for the further properties *)
(* ===================================================================== *)

Module Views.

Import PyStr AmazonSpider Links.

(** Every character of [s] satisfies [p]. *)
Fixpoint all_chars (p : ascii -> bool) (s : string) : bool :=
  match s with
  | EmptyString => true
  | String c s' => p c && all_chars p s'
  end.

(** No whitespace character starts [s]. *)
Definition starts_clean (s : string) : bool :=
  match_len whitespace s =? 0.

(** No whitespace character ends [s]. *)
Definition ends_clean (s : string) : bool :=
  match_len (map rev_string whitespace) (rev_string s) =? 0.

(** The element a raw draw selects in a pool: [pool[draw % len(pool)]]. *)
Definition pick (pool : list string) (draw : nat) : string :=
  nth (draw mod length pool) pool EmptyString.


(** A string that is a sequence of the given characters (each one a
    byte string of [pats]). *)
Inductive made_of (pats : list string) : string -> Prop :=
| made_of_nil : made_of pats EmptyString
| made_of_cons (p s : string) :
    In p pats -> made_of pats s -> made_of pats (p ++ s).

(** A string of whitespace characters only. *)
Definition only_spaces (s : string) : Prop := made_of whitespace s.

(** A call the engine makes on the spider while it crawls. *)
Inductive Call : Type :=
| call_start_requests
| call_parse (response : Response)
| call_parse_product (response : Response)
| call_errback (failed : Request).

Definition is_product_call (c : Call) : bool :=
  match c with call_parse_product _ => true | _ => false end.

Section WithJsonDecoder.

Variable Request_url : string -> option string.
Variable json_loads : string -> option Json.value.

(** One call; the result is the items the call returned. *)
Definition invoke (self : Instance) (c : Call) : M (list Item) :=
  match c with
  | call_start_requests => do u <- start_requests self; ret []
  | call_parse response => do u <- parse Request_url self response; ret []
  | call_parse_product response =>
      do item <- parse_product json_loads response; ret [item]
  | call_errback failed => do u <- errback failed; ret []
  end.

(** The calls of a crawl, in the order the engine makes them; an
    exception ends the sequence. *)
Fixpoint invoke_all (self : Instance) (calls : list Call) : M (list Item) :=
  match calls with
  | [] => ret []
  | c :: rest =>
      do items <- invoke self c;
      do more <- invoke_all self rest;
      ret (items ++ more)%list
  end.

(** A whole run: the calls of the crawl, then the close handler. *)
Definition lifecycle (self : Instance) (calls : list Call) : M (list Item) :=
  do items <- invoke_all self calls;
  do u <- spider_closed;
  ret items.

End WithJsonDecoder.

(** The state a computation leaves behind, whether it returns or
    raises. *)
Definition world_of {A} (res : Res A) : World :=
  match res with
  | Ok _ w => w
  | Raise _ w => w
  end.

(** The exception of a result that is one. *)
Definition raised {A} (res : Res A) : option Exc :=
  match res with
  | Ok _ _ => None
  | Raise e _ => Some e
  end.

(** A computation that, whether it returns or raises, leaves
    [self.total_items] as it found it, hands the engine only requests
    that satisfy [P], and raises nothing but [IndexError] and
    [ValueError]. *)
Definition only_yields {A} (P : Request -> Prop) (m : M A) : Prop :=
  forall w, exists reqs,
    Forall P reqs /\
    total_items (world_of (m w)) = total_items w /\
    scheduled (world_of (m w)) = (scheduled w ++ reqs)%list /\
    (raised (m w) = None \/ raised (m w) = Some IndexError \/
     raised (m w) = Some ValueError).

(** A spider whose class has the given rotation lists and seed URLs. *)
Definition spider_of (agents proxies urls : list string) : Instance :=
  init ∅ {| cls_USER_AGENTS := agents; cls_PROXIES := proxies;
            cls_start_urls := urls |} ∅.

End Views.

(* ===================================================================== *)
(** * Properties of the spider *)
(* ===================================================================== *)

Import PyStr AmazonSpider Links Views.

(** ** The monad and [random.choice] *)

Lemma extends_refl (w : World) : extends w [] w.
Proof. split; [reflexivity | now rewrite app_nil_r]. Qed.

Lemma extends_trans (w1 w2 w3 : World) (r1 r2 : list Request) :
  extends w1 r1 w2 -> extends w2 r2 w3 -> extends w1 (r1 ++ r2) w3.
Proof.
  intros [Ht1 Hs1] [Ht2 Hs2]. split.
  - congruence.
  - rewrite Hs2, Hs1. now rewrite app_assoc.
Qed.

Lemma choice_ok {A} (seq : list A) (w : World) :
  seq <> [] ->
  exists a w', choice seq w = Ok a w' /\ In a seq /\ extends w [] w'.
Proof.
  intros Hne. destruct seq as [|d rest]; [congruence|].
  eexists _, _. split; [reflexivity|]. split.
  - apply nth_In. apply Nat.mod_upper_bound. discriminate.
  - split; simpl; [reflexivity | now rewrite app_nil_r].
Qed.

Lemma yield_ok (r : Request) (w : World) :
  exists w', yield r w = Ok tt w' /\ extends w [r] w'.
Proof. eexists. split; [reflexivity|]. split; reflexivity. Qed.

(** ** [parse]: one block, then the loop *)

Lemma choice_pick (pool : list string) (w : World) :
  pool <> [] ->
  choice pool w =
    Ok (pick pool (rng w 0))
       (mkWorld (fun i => rng w (S i)) (total_items w) (scheduled w)).
Proof.
  intros Hne. destruct pool as [|d rest]; [congruence|].
  unfold choice, pick. f_equal. apply nth_indep.
  apply Nat.mod_upper_bound. discriminate.
Qed.

Lemma pick_in (pool : list string) (draw : nat) :
  pool <> [] -> In (pick pool draw) pool.
Proof.
  intros Hne. apply nth_In. apply Nat.mod_upper_bound.
  destruct pool; [congruence | discriminate].
Qed.

Section ParseLoop.

Variable Request_url : string -> option string.
Variable self : Instance.
Variable response : Response.

Local Abbreviation pool := (cls_USER_AGENTS (self_class self)).
Local Abbreviation held := (held_url Request_url response).
Local Abbreviation links_of :=
  (omap (fun b : Selector => link_of (block_href b))).

Lemma parse_block_skip (block : Selector) (w : World) :
  link_of (block_href block) = None ->
  parse_block Request_url self response block w = Ok tt w.
Proof.
  unfold parse_block, block_href, link_of, truthy_opt.
  destruct (sel_css_get block q_block_href) as [s|]; [|reflexivity].
  destruct (truthy s); [discriminate | reflexivity].
Qed.

(** A link whose URL the request class keeps: one draw, one request. *)
Lemma parse_block_held (block : Selector) (w : World) (link u : string) :
  pool <> [] ->
  link_of (block_href block) = Some link ->
  held link = Some u ->
  parse_block Request_url self response block w =
    Ok tt (mkWorld (fun i => rng w (S i)) (total_items w)
             (scheduled w ++ [product_request response (pick pool (rng w 0)) u])).
Proof.
  intros Hpool Hlink Hheld.
  unfold parse_block, block_href, link_of, truthy_opt, held_url in *.
  destruct (sel_css_get block q_block_href) as [s|]; [|discriminate].
  destruct (truthy s); [|discriminate].
  injection Hlink as ->. simpl.
  destruct (urljoin response link) as [joined|]; [|discriminate].
  unfold bind, or_value_error. rewrite (choice_pick _ w Hpool), Hheld.
  reflexivity.
Qed.

(** A link that does not join, or whose URL the request class rejects:
    [ValueError], and no request. *)
Lemma parse_block_rejected (block : Selector) (w : World) (link : string) :
  pool <> [] ->
  link_of (block_href block) = Some link ->
  held link = None ->
  exists w',
    parse_block Request_url self response block w = Raise ValueError w' /\
    total_items w' = total_items w /\ scheduled w' = scheduled w.
Proof.
  intros Hpool Hlink Hheld.
  unfold parse_block, block_href, link_of, truthy_opt, held_url in *.
  destruct (sel_css_get block q_block_href) as [s|]; [|discriminate].
  destruct (truthy s); [|discriminate].
  injection Hlink as ->. simpl.
  destruct (urljoin response link) as [joined|].
  - unfold bind, or_value_error. rewrite (choice_pick _ w Hpool), Hheld.
    eexists. split; [reflexivity|]. split; reflexivity.
  - exists w. split; [reflexivity|]. split; reflexivity.
Qed.

(** The loop over the result blocks when every link is kept. *)
Lemma parse_blocks_held (blocks : list Selector) :
  pool <> [] ->
  forall urls w,
    Forall2 (fun link u => held link = Some u) (links_of blocks) urls ->
    exists w',
      for_each (parse_block Request_url self response) blocks w = Ok tt w' /\
      total_items w' = total_items w /\
      rng w' = (fun i => rng w (length urls + i)) /\
      scheduled w' =
        (scheduled w ++
         imap (fun k u => product_request response (pick pool (rng w k)) u) urls)%list.
Proof.
  intros Hpool. induction blocks as [|block rest IH]; intros urls w Hheld.
  - inversion Hheld; subst. exists w. split; [reflexivity|].
    split; [reflexivity|]. split; [reflexivity|]. simpl. now rewrite app_nil_r.
  - simpl for_each. unfold bind. cbn [omap list_omap] in Hheld.
    destruct (link_of (block_href block)) as [link|] eqn:Hlink.
    + inversion Hheld as [|? u ? urls' Hu Hrest]; subst.
      rewrite (parse_block_held block w link u Hpool Hlink Hu).
      match goal with
      | |- context [for_each _ rest ?w1] =>
          destruct (IH urls' w1 Hrest) as (w2 & Hrun & Htot & Hrng & Hsched)
      end.
      exists w2. split; [exact Hrun|]. split; [exact Htot|].
      split; [exact Hrng|].
      rewrite Hsched. cbn [scheduled rng]. rewrite <- app_assoc. reflexivity.
    + rewrite (parse_block_skip block w Hlink). now apply IH.
Qed.

(** The loop over the result blocks when a link is rejected: the loop
    stops there, with the requests of the links before it. *)
Lemma parse_blocks_rejected (blocks : list Selector) :
  pool <> [] ->
  forall before bad after urls w,
    links_of blocks = (before ++ bad :: after)%list ->
    Forall2 (fun link u => held link = Some u) before urls ->
    held bad = None ->
    exists w',
      for_each (parse_block Request_url self response) blocks w = Raise ValueError w' /\
      total_items w' = total_items w /\
      scheduled w' =
        (scheduled w ++
         imap (fun k u => product_request response (pick pool (rng w k)) u) urls)%list.
Proof.
  intros Hpool. induction blocks as [|block rest IH];
    intros before bad after urls w Hlinks Hheld Hbad.
  - destruct before; discriminate.
  - simpl for_each. unfold bind. cbn [omap list_omap] in Hlinks.
    destruct (link_of (block_href block)) as [link|] eqn:Hlink.
    + destruct before as [|b before'].
      * simpl in Hlinks. injection Hlinks as <- _. inversion Hheld; subst.
        destruct (parse_block_rejected block w link Hpool Hlink Hbad)
          as (w' & -> & Htot & Hsched).
        exists w'. split; [reflexivity|]. split; [exact Htot|].
        simpl. now rewrite app_nil_r.
      * simpl in Hlinks. injection Hlinks as <- Hrest.
        inversion Hheld as [|? u ? urls' Hu Hbefore]; subst.
        rewrite (parse_block_held block w link u Hpool Hlink Hu).
        match goal with
        | |- context [for_each _ rest ?w1] =>
            destruct (IH before' bad after urls' w1 Hrest Hbefore Hbad)
              as (w2 & Hrun & Htot & Hsched)
        end.
        exists w2. split; [exact Hrun|]. split; [exact Htot|].
        rewrite Hsched. cbn [scheduled rng]. rewrite <- app_assoc. reflexivity.
    + rewrite (parse_block_skip block w Hlink).
      now apply (IH before bad after).
Qed.

(** The whole of [parse] when every link is kept: the product requests
    of the loop, then the next-page request when there is a next-page
    link; one draw each. *)
Lemma parse_held (w : World) (urls nexts : list string) :
  pool <> [] ->
  Forall2 (fun link u => held link = Some u) (product_links response) urls ->
  Forall2 (fun link u => held link = Some u)
          (match next_page_link response with Some n => [n] | None => [] end)
          nexts ->
  exists w',
    parse Request_url self response w = Ok tt w' /\
    total_items w' = total_items w /\
    (forall i, rng w' i = rng w (length urls + length nexts + i)) /\
    scheduled w' =
      (scheduled w
       ++ imap (fun k u => product_request response (pick pool (rng w k)) u) urls
       ++ map (next_page_request response (pick pool (rng w (length urls)))) nexts)%list.
Proof.
  intros Hpool Hurls Hnexts. unfold parse, bind.
  destruct (parse_blocks_held (css response q_result_blocks) Hpool urls w Hurls)
    as (w1 & Hloop & Htot & Hrng & Hsched).
  rewrite Hloop. unfold next_page_link, link_of, truthy_opt in *.
  destruct (css_get response q_next_page) as [s|];
    [destruct (truthy s)|]; simpl in *.
  - inversion Hnexts as [|? u ? ? Hu Hnil]; subst. inversion Hnil; subst.
    unfold held_url in Hu.
    destruct (urljoin response s) as [joined|]; [|discriminate].
    unfold bind, or_value_error. rewrite (choice_pick _ w1 Hpool), Hu.
    eexists. split; [reflexivity|].
    cbn [total_items rng scheduled length map]. split; [exact Htot|]. split.
    + intros i. rewrite Hrng. f_equal. lia.
    + rewrite Hsched, Hrng, Nat.add_0_r, <- app_assoc. reflexivity.
  - inversion Hnexts; subst. exists w1. split; [reflexivity|].
    split; [exact Htot|]. split.
    + intros i. rewrite Hrng. f_equal. simpl. lia.
    + rewrite Hsched. simpl. now rewrite app_nil_r.
  - inversion Hnexts; subst. exists w1. split; [reflexivity|].
    split; [exact Htot|]. split.
    + intros i. rewrite Hrng. f_equal. simpl. lia.
    + rewrite Hsched. simpl. now rewrite app_nil_r.
Qed.

(** [parse] when a product link is rejected. *)
Lemma parse_product_link_rejected (w : World)
    (before : list string) (bad : string) (after urls : list string) :
  pool <> [] ->
  product_links response = (before ++ bad :: after)%list ->
  Forall2 (fun link u => held link = Some u) before urls ->
  held bad = None ->
  exists w',
    parse Request_url self response w = Raise ValueError w' /\
    total_items w' = total_items w /\
    scheduled w' =
      (scheduled w ++
       imap (fun k u => product_request response (pick pool (rng w k)) u) urls)%list.
Proof.
  intros Hpool Hlinks Hbefore Hbad. unfold parse, bind.
  destruct (parse_blocks_rejected (css response q_result_blocks) Hpool
              before bad after urls w Hlinks Hbefore Hbad)
    as (w' & -> & Htot & Hsched).
  exists w'. split; [reflexivity|]. split; assumption.
Qed.

(** [parse] when every product link is kept and the next-page link is
    rejected. *)
Lemma parse_next_link_rejected (w : World) (urls : list string) (next : string) :
  pool <> [] ->
  Forall2 (fun link u => held link = Some u) (product_links response) urls ->
  next_page_link response = Some next ->
  held next = None ->
  exists w',
    parse Request_url self response w = Raise ValueError w' /\
    total_items w' = total_items w /\
    scheduled w' =
      (scheduled w ++
       imap (fun k u => product_request response (pick pool (rng w k)) u) urls)%list.
Proof.
  intros Hpool Hurls Hnext Hbad. unfold parse, bind.
  destruct (parse_blocks_held (css response q_result_blocks) Hpool urls w Hurls)
    as (w1 & Hloop & Htot & Hrng & Hsched).
  rewrite Hloop. unfold next_page_link, link_of, truthy_opt in *.
  destruct (css_get response q_next_page) as [s|]; [|discriminate].
  destruct (truthy s); [|discriminate].
  injection Hnext as ->. simpl. unfold held_url in Hbad.
  destruct (urljoin response next) as [joined|].
  - unfold bind, or_value_error. rewrite (choice_pick _ w1 Hpool), Hbad.
    eexists. split; [reflexivity|]. split; [exact Htot | exact Hsched].
  - exists w1. split; [reflexivity|]. split; [exact Htot | exact Hsched].
Qed.

End ParseLoop.

Lemma product_requests_projection (response : Response) (g : nat -> string)
    (urls : list string) :
  map (fun r => (req_url r, req_callback r))
      (imap (fun k u => product_request response (g k) u) urls)
  = map (fun u => (u, h_parse_product)) urls /\
  List.filter is_product_request
              (imap (fun k u => product_request response (g k) u) urls)
  = imap (fun k u => product_request response (g k) u) urls.
Proof.
  revert g. induction urls as [|u urls IH]; intros g; [split; reflexivity|].
  destruct (IH (fun k => g (S k))) as [IHm IHf].
  cbn [imap map List.filter]. split.
  - f_equal. exact IHm.
  - cbn. f_equal. exact IHf.
Qed.

Lemma next_requests_projection (response : Response) (ua : string)
    (nexts : list string) :
  map (fun r => (req_url r, req_callback r))
      (map (next_page_request response ua) nexts)
  = map (fun u => (u, h_parse)) nexts /\
  List.filter is_product_request (map (next_page_request response ua) nexts) = [].
Proof.
  induction nexts as [|u nexts [IHm IHf]]; [split; reflexivity|].
  split; simpl; [now rewrite IHm | exact IHf].
Qed.

Lemma linked_blocks_count (blocks : list Selector) :
  length (omap (fun b => link_of (block_href b)) blocks) =
  length (List.filter carries_link blocks).
Proof.
  induction blocks as [|b rest IH]; [reflexivity|].
  cbn [omap list_omap List.filter]. unfold carries_link at 1.
  unfold link_of at 1. unfold truthy_opt.
  destruct (block_href b) as [s|]; [destruct (truthy s)|]; simpl; congruence.
Qed.

(** C2, as the code has it. A search page with product links and a
    next-page link, on which every link joins to a URL the request class
    keeps: [parse] hands the engine exactly one request per product
    link, tagged with the product callback, in page order, and after all
    of them exactly one request for the next page, tagged with the search
    callback; with no next-page link it hands over the product requests
    only.  At the first link that is rejected [parse] raises
    [ValueError]: the engine has the requests of the product links before
    it and no other. *)
Theorem parse_enqueues_products_then_next_page
    (Request_url : string -> option string)
    (self : Instance) (response : Response) (w : World) :
  cls_USER_AGENTS (self_class self) <> [] ->
  (forall urls nexts,
      Forall2 (fun link u => held_url Request_url response link = Some u)
              (product_links response) urls ->
      Forall2 (fun link u => held_url Request_url response link = Some u)
              (match next_page_link response with Some n => [n] | None => [] end)
              nexts ->
      exists w' reqs,
        parse Request_url self response w = Ok tt w' /\
        scheduled w' = (scheduled w ++ reqs)%list /\
        map (fun r => (req_url r, req_callback r)) reqs =
          (map (fun u => (u, h_parse_product)) urls
           ++ map (fun u => (u, h_parse)) nexts)%list) /\
  (forall before bad after urls,
      product_links response = (before ++ bad :: after)%list ->
      Forall2 (fun link u => held_url Request_url response link = Some u)
              before urls ->
      held_url Request_url response bad = None ->
      exists w' reqs,
        parse Request_url self response w = Raise ValueError w' /\
        scheduled w' = (scheduled w ++ reqs)%list /\
        map (fun r => (req_url r, req_callback r)) reqs =
          map (fun u => (u, h_parse_product)) urls) /\
  (forall urls next,
      Forall2 (fun link u => held_url Request_url response link = Some u)
              (product_links response) urls ->
      next_page_link response = Some next ->
      held_url Request_url response next = None ->
      exists w' reqs,
        parse Request_url self response w = Raise ValueError w' /\
        scheduled w' = (scheduled w ++ reqs)%list /\
        map (fun r => (req_url r, req_callback r)) reqs =
          map (fun u => (u, h_parse_product)) urls).
Proof.
  intros Hpool. split; [|split].
  - intros urls nexts Hurls Hnexts.
    destruct (parse_held Request_url self response w urls nexts Hpool Hurls Hnexts)
      as (w' & Hrun & _ & _ & Hsched).
    eexists w', _. split; [exact Hrun|]. split; [exact Hsched|].
    rewrite map_app.
    rewrite (proj1 (product_requests_projection response _ urls)).
    rewrite (proj1 (next_requests_projection response _ nexts)).
    reflexivity.
  - intros before bad after urls Hlinks Hbefore Hbad.
    destruct (parse_product_link_rejected Request_url self response w
                before bad after urls Hpool Hlinks Hbefore Hbad)
      as (w' & Hrun & _ & Hsched).
    eexists w', _. split; [exact Hrun|]. split; [exact Hsched|].
    exact (proj1 (product_requests_projection response _ urls)).
  - intros urls next Hurls Hnext Hbad.
    destruct (parse_next_link_rejected Request_url self response w
                urls next Hpool Hurls Hnext Hbad)
      as (w' & Hrun & _ & Hsched).
    eexists w', _. split; [exact Hrun|]. split; [exact Hsched|].
    exact (proj1 (product_requests_projection response _ urls)).
Qed.

Lemma parse_enqueues_products_then_next_page_witness :
  cls_USER_AGENTS (self_class Samples.plain_spider) <> [] /\
  exists w' reqs,
    parse Samples.strict_request Samples.plain_spider
      (Samples.search_page [Some "/dp/A"; None; Some "/dp/B"] (Some "/s?page=2"))
      (init_world Samples.zero_draws) = Ok tt w' /\
    scheduled w' = reqs /\
    map (fun r => (req_url r, req_callback r)) reqs =
      [ ("https://www.amazon.com/dp/A", h_parse_product);
        ("https://www.amazon.com/dp/B", h_parse_product);
        ("https://www.amazon.com/s?page=2", h_parse) ].
Proof.
  split; [discriminate|].
  refine (proj1 (parse_enqueues_products_then_next_page Samples.strict_request
                   Samples.plain_spider
                   (Samples.search_page [Some "/dp/A"; None; Some "/dp/B"]
                                        (Some "/s?page=2"))
                   (init_world Samples.zero_draws) ltac:(discriminate))
                ["https://www.amazon.com/dp/A"; "https://www.amazon.com/dp/B"]
                ["https://www.amazon.com/s?page=2"] _ _);
    repeat constructor.
Defined.

(** C2, as the claim words it, fails: on a page whose second product
    link is [javascript:void(0)] the request class rejects the URL,
    [parse] raises [ValueError], and the engine has one product request
    for three product links and no next-page request. *)
Lemma scheme_less_link_stops_parse :
  raised (parse Samples.strict_request Samples.plain_spider
            (Samples.search_page
               [Some "/dp/A"; Some "javascript:void(0)"; Some "/dp/B"]
               (Some "/s?page=2"))
            (init_world Samples.zero_draws)) = Some ValueError /\
  length (List.filter is_product_request
            (requests_of (parse Samples.strict_request Samples.plain_spider
                            (Samples.search_page
                               [Some "/dp/A"; Some "javascript:void(0)"; Some "/dp/B"]
                               (Some "/s?page=2"))
                            (init_world Samples.zero_draws))))
  <> length (product_links
               (Samples.search_page
                  [Some "/dp/A"; Some "javascript:void(0)"; Some "/dp/B"]
                  (Some "/s?page=2"))) /\
  List.filter is_search_request
    (requests_of (parse Samples.strict_request Samples.plain_spider
                    (Samples.search_page
                       [Some "/dp/A"; Some "javascript:void(0)"; Some "/dp/B"]
                       (Some "/s?page=2"))
                    (init_world Samples.zero_draws))) = [].
Proof. split; [|split]; vm_compute; [reflexivity | discriminate | reflexivity]. Qed.

(** C10, as the code has it. A block whose href is missing or empty is
    skipped without an error and without a request; when every non-empty
    href joins to a URL the request class keeps, the product requests of
    a page are those of the blocks with a non-empty href, as many and in
    page order, whatever becomes of the next-page link. *)
Theorem parse_requests_one_per_linked_block
    (Request_url : string -> option string)
    (self : Instance) (response : Response) (w : World) (urls : list string) :
  cls_USER_AGENTS (self_class self) <> [] ->
  Forall2 (fun link u => held_url Request_url response link = Some u)
          (product_links response) urls ->
  (forall block w0,
      carries_link block = false ->
      parse_block Request_url self response block w0 = Ok tt w0) /\
  exists reqs,
    requests_of (parse Request_url self response w) = (scheduled w ++ reqs)%list /\
    length (List.filter is_product_request reqs) =
      length (List.filter carries_link (result_blocks response)) /\
    map req_url (List.filter is_product_request reqs) = urls.
Proof.
  intros Hpool Hurls. split.
  - intros block w0 Hno. apply parse_block_skip.
    unfold carries_link, truthy_opt, link_of in *.
    destruct (block_href block) as [s|]; [|reflexivity]. now rewrite Hno.
  - assert (Hcount : length urls
                     = length (List.filter carries_link (result_blocks response))).
    { rewrite <- (Forall2_length _ _ _ Hurls). apply linked_blocks_count. }
    assert (Hprods : forall g,
               length (List.filter is_product_request
                         (imap (fun k u => product_request response (g k) u) urls))
               = length (List.filter carries_link (result_blocks response)) /\
               map req_url
                   (List.filter is_product_request
                      (imap (fun k u => product_request response (g k) u) urls))
               = urls).
    { intros g.
      destruct (product_requests_projection response g urls) as [Hmap ->].
      split; [now rewrite length_imap|].
      apply (f_equal (map fst)) in Hmap. rewrite !map_map in Hmap.
      simpl in Hmap. now rewrite map_id in Hmap. }
    destruct (next_page_link response) as [next|] eqn:Hnext.
    + destruct (held_url Request_url response next) as [u|] eqn:Hu.
      * destruct (parse_held Request_url self response w urls [u] Hpool Hurls)
          as (w' & Hrun & _ & _ & Hsched).
        { rewrite Hnext. repeat constructor. exact Hu. }
        rewrite Hrun. cbn [requests_of]. eexists. split; [exact Hsched|].
        rewrite List.filter_app.
        rewrite (proj2 (next_requests_projection response _ [u])), app_nil_r.
        apply Hprods.
      * destruct (parse_next_link_rejected Request_url self response w
                    urls next Hpool Hurls Hnext Hu)
          as (w' & Hrun & _ & Hsched).
        rewrite Hrun. cbn [requests_of]. eexists. split; [exact Hsched|].
        apply Hprods.
    + destruct (parse_held Request_url self response w urls [] Hpool Hurls)
        as (w' & Hrun & _ & _ & Hsched).
      { rewrite Hnext. constructor. }
      rewrite Hrun. cbn [requests_of]. eexists. split; [exact Hsched|].
      simpl. rewrite app_nil_r. apply Hprods.
Qed.

Lemma parse_requests_one_per_linked_block_witness :
  cls_USER_AGENTS (self_class Samples.plain_spider) <> [] /\
  exists reqs,
    requests_of
      (parse Samples.strict_request Samples.plain_spider
         (Samples.search_page [Some "/dp/A"; None; Some EmptyString; Some "/dp/B"] None)
         (init_world Samples.zero_draws)) = reqs /\
    length (List.filter is_product_request reqs) = 2 /\
    map req_url (List.filter is_product_request reqs) =
      ["https://www.amazon.com/dp/A"; "https://www.amazon.com/dp/B"].
Proof.
  split; [discriminate|].
  refine (proj2 (parse_requests_one_per_linked_block Samples.strict_request
                   Samples.plain_spider
                   (Samples.search_page
                      [Some "/dp/A"; None; Some EmptyString; Some "/dp/B"] None)
                   (init_world Samples.zero_draws)
                   ["https://www.amazon.com/dp/A"; "https://www.amazon.com/dp/B"]
                   ltac:(discriminate) _));
    repeat constructor.
Defined.

(** C10, as the claim words it, fails: a block whose href attribute is
    present but empty carries an href and still gets no product request. *)
Lemma empty_href_block_gets_no_request :
  length (List.filter is_product_request
            (requests_of (parse Samples.strict_request Samples.plain_spider
                            (Samples.search_page [Some EmptyString] None)
                            (init_world Samples.zero_draws))))
  <> length (List.filter carries_href
               (result_blocks (Samples.search_page [Some EmptyString] None))).
Proof. vm_compute. discriminate. Qed.

(** ** [parse_product] and [spider_closed] *)

Lemma strip_empty : strip EmptyString = EmptyString.
Proof. reflexivity. Qed.

Lemma extract_nothing (response : Response) (query : string) :
  xpath_get response query = None -> extract response query = EmptyString.
Proof. intros H. unfold extract. rewrite H. reflexivity. Qed.

Lemma product_images_malformed (json_loads : string -> option Json.value)
    (response : Response) (raw : string) :
  xpath_re_first response q_image_script re_color_images = Some raw ->
  json_loads raw = None ->
  product_images json_loads response = [].
Proof.
  intros Hraw Hbad. unfold product_images. rewrite Hraw. simpl.
  rewrite Hbad. now destruct (truthy raw).
Qed.

(** C7. On any product page, with any JSON decoder, [parse_product]
    returns an item and raises nothing; it counts exactly one item and
    yields no request; each of title, price, rating, review count and
    description whose query finds nothing is the empty string; image data
    the decoder rejects gives the empty image list. *)
Theorem parse_product_never_fails
    (json_loads : string -> option Json.value) (response : Response) (w : World) :
  exists item,
    parse_product json_loads response w =
      Ok item (mkWorld (rng w) (S (total_items w)) (scheduled w)) /\
    (xpath_get response q_title = None -> title item = EmptyString) /\
    (xpath_get response q_price = None -> price item = EmptyString) /\
    (xpath_get response q_rating = None -> rating item = EmptyString) /\
    (xpath_get response q_reviews = None -> reviews item = EmptyString) /\
    (xpath_get response q_desc = None -> description item = EmptyString) /\
    (forall raw,
        xpath_re_first response q_image_script re_color_images = Some raw ->
        json_loads raw = None ->
        images item = []).
Proof.
  eexists. split; [reflexivity|]. cbn [title price rating reviews description images].
  repeat split; try apply extract_nothing.
  intros raw. apply product_images_malformed.
Qed.

Lemma parse_product_never_fails_witness :
  exists item,
    parse_product Samples.reject_all (Samples.bare_product_page (Some "{'initial': oops}"))
      (init_world Samples.zero_draws) = Ok item (mkWorld Samples.zero_draws 1 []) /\
    title item = EmptyString /\ price item = EmptyString /\
    rating item = EmptyString /\ reviews item = EmptyString /\
    description item = EmptyString /\ images item = [].
Proof.
  destruct (parse_product_never_fails Samples.reject_all
              (Samples.bare_product_page (Some "{'initial': oops}"))
              (init_world Samples.zero_draws))
    as (item & Hrun & Ht & Hp & Hr & Hv & Hd & Hi).
  exists item. split; [exact Hrun|].
  split; [apply Ht; reflexivity|]. split; [apply Hp; reflexivity|].
  split; [apply Hr; reflexivity|]. split; [apply Hv; reflexivity|].
  split; [apply Hd; reflexivity|].
  apply (Hi "{'initial': oops}"); reflexivity.
Defined.

(** C1. Closing the spider raises [CloseSpider] exactly when no item was
    counted, and returns normally exactly when at least one was; after
    any product page has been parsed, closing returns normally. *)
Theorem spider_closed_fails_exactly_on_empty_run (w : World) :
  ((exists reason, spider_closed w = Raise (CloseSpider reason) w)
   <-> total_items w = 0) /\
  (spider_closed w = Ok tt w <-> 1 <= total_items w) /\
  (forall json_loads response,
      exists item w',
        parse_product json_loads response w = Ok item w' /\
        spider_closed w' = Ok tt w').
Proof.
  unfold spider_closed, bind, read_total_items, raise, ret.
  destruct (total_items w) as [|n] eqn:Hn; simpl.
  - split; [|split].
    + split; [reflexivity | intros _; eexists; reflexivity].
    + split; [discriminate | lia].
    + intros json_loads response. eexists _, _. split; reflexivity.
  - split; [|split].
    + split; [intros [reason H]; discriminate | discriminate].
    + split; [lia | reflexivity].
    + intros json_loads response. eexists _, _. split; reflexivity.
Qed.

(** [errback] hands nothing back to the engine: the spider itself never
    re-issues a failed request. *)
Lemma errback_schedules_nothing (failed : Request) (w : World) :
  errback failed w = Ok tt w.
Proof. reflexivity. Qed.

(** ** [start_requests] *)

(** Whatever arguments the spider is started with, [start_requests] makes
    exactly one request, for the search URL of the class-level keyword,
    with the search callback. *)
Lemma start_requests_seeds_once
    (project_ns kwargs : gmap string string) (w : World) :
  exists ua w',
    start_requests (init project_ns (source project_ns) kwargs) w = Ok tt w' /\
    In ua USER_AGENTS /\
    scheduled w' =
      (scheduled w ++
       [ {| req_url := cat ["https://www.amazon.com/s?k="; keyword project_ns];
            req_headers := {[ "User-Agent" := ua ]};
            req_meta := ∅;
            req_callback := h_parse;
            req_errback := h_errback |} ])%list.
Proof.
  unfold start_requests, init, source. cbn [self_class cls_start_urls start_urls for_each].
  unfold bind, seed_request, bind. cbn [self_class cls_USER_AGENTS cls_PROXIES PROXIES].
  destruct (choice_ok USER_AGENTS w ltac:(discriminate)) as (ua & w1 & Hc & Hin & [_ Hs]).
  rewrite Hc. exists ua. eexists. split; [reflexivity|]. split; [exact Hin|].
  cbn. rewrite Hs. now rewrite app_nil_r.
Qed.

Lemma keyword_default : keyword ∅ = "laptops".
Proof. reflexivity. Qed.

(** C8, at the failing input. Started with [-a keyword=phones], the
    instance holds the keyword phones, and the one seed request still
    goes to the search URL of laptops. *)
Theorem seed_url_ignores_keyword_argument :
  self_keyword Samples.phones_spider = "phones" /\
  map req_url
      (requests_of (start_requests Samples.phones_spider
                      (init_world Samples.zero_draws)))
  = ["https://www.amazon.com/s?k=laptops"].
Proof. split; vm_compute; reflexivity. Qed.

(** ** Rotation of user agents and proxies *)

Lemma only_yields_ret {A} (P : Request -> Prop) (a : A) : only_yields P (ret a).
Proof.
  intros w. exists []. simpl. rewrite app_nil_r.
  split; [constructor|]. split; [reflexivity|]. split; [reflexivity | now left].
Qed.

Lemma only_yields_bind {A B} (P : Request -> Prop) (m : M A) (k : A -> M B) :
  only_yields P m -> (forall a, only_yields P (k a)) -> only_yields P (bind m k).
Proof.
  intros Hm Hk w. unfold bind.
  destruct (Hm w) as (r1 & HP1 & Ht1 & Hs1 & He1).
  destruct (m w) as [a w1|e w1]; simpl in *.
  - destruct (Hk a w1) as (r2 & HP2 & Ht2 & Hs2 & He2).
    exists (r1 ++ r2)%list. split; [now apply Forall_app|].
    split; [congruence|]. split; [|exact He2].
    rewrite Hs2, Hs1. now rewrite app_assoc.
  - exists r1. split; [exact HP1|]. split; [exact Ht1|]. split; [exact Hs1 | exact He1].
Qed.

Lemma only_yields_choice {A B} (P : Request -> Prop) (seq : list A) (k : A -> M B) :
  (forall a, In a seq -> only_yields P (k a)) ->
  only_yields P (bind (choice seq) k).
Proof.
  intros Hk w. unfold bind, choice. destruct seq as [|d rest].
  - exists []. simpl. rewrite app_nil_r.
    split; [constructor|]. split; [reflexivity|].
    split; [reflexivity | right; now left].
  - assert (Hin : In (nth (rng w 0 mod length (d :: rest)) (d :: rest) d) (d :: rest)).
    { apply nth_In. apply Nat.mod_upper_bound. discriminate. }
    exact (Hk _ Hin (mkWorld (fun i => rng w (S i)) (total_items w) (scheduled w))).
Qed.

Lemma only_yields_value_error {A B} (P : Request -> Prop) (o : option A)
    (k : A -> M B) :
  (forall a, only_yields P (k a)) ->
  only_yields P (bind (or_value_error o) k).
Proof.
  intros Hk w. unfold bind, or_value_error. destruct o as [a|].
  - apply Hk.
  - exists []. simpl. rewrite app_nil_r.
    split; [constructor|]. split; [reflexivity|].
    split; [reflexivity | right; now right].
Qed.

Lemma only_yields_yield (P : Request -> Prop) (r : Request) :
  P r -> only_yields P (yield r).
Proof.
  intros Hr w. exists [r]. simpl. split; [now constructor|].
  split; [reflexivity|]. split; [reflexivity | now left].
Qed.

Lemma only_yields_for_each {A} (P : Request -> Prop) (body : A -> M unit)
    (l : list A) :
  (forall x, only_yields P (body x)) -> only_yields P (for_each body l).
Proof.
  intros Hbody. induction l as [|x rest IH]; [apply only_yields_ret|].
  simpl. apply only_yields_bind; [apply Hbody | intros _; exact IH].
Qed.

(** Every request [parse] hands to the engine, whether it then returns
    or raises, has a user agent of the list and no proxy, whatever the
    proxy list holds; [parse] leaves the item count alone and raises
    nothing but [IndexError] and [ValueError]. *)
Lemma parse_requests_rotation (Request_url : string -> option string)
    (self : Instance) (response : Response) :
  only_yields
    (fun r =>
       (exists ua, In ua (cls_USER_AGENTS (self_class self)) /\
                   req_headers r !! "User-Agent" = Some ua) /\
       req_meta r !! "proxy" = None)
    (parse Request_url self response).
Proof.
  unfold parse. apply only_yields_bind.
  - apply only_yields_for_each. intros block. unfold parse_block.
    destruct (negb (truthy_opt (sel_css_get block q_block_href)));
      [apply only_yields_ret|].
    apply only_yields_value_error. intros prod_url.
    apply only_yields_choice. intros ua Hua.
    apply only_yields_value_error. intros u.
    apply only_yields_yield. split; [exists ua; split; [exact Hua|]|]; reflexivity.
  - intros _. destruct (truthy_opt (css_get response q_next_page));
      [|apply only_yields_ret].
    apply only_yields_value_error. intros next_url.
    apply only_yields_choice. intros ua Hua.
    apply only_yields_value_error. intros u.
    apply only_yields_yield. split; [exists ua; split; [exact Hua|]|]; reflexivity.
Qed.

(** C9, at the failing input. With one proxy in the pool, the seed
    request carries it, and the product request and the next-page request
    that [parse] makes carry none; all three carry a user agent.  The
    request class may keep the two URLs in any form. *)
Theorem follow_up_requests_carry_no_proxy
    (Request_url : string -> option string) (product_url next_url : string) :
  Request_url "https://www.amazon.com/dp/A" = Some product_url ->
  Request_url "https://www.amazon.com/s?page=2" = Some next_url ->
  map (fun r => (req_callback r, req_headers r !! "User-Agent", req_meta r !! "proxy"))
      (requests_of (start_requests Samples.proxied_spider
                      (init_world Samples.zero_draws)))
  = [(h_parse, nth_error USER_AGENTS 0, Some "http://proxy1:8080")] /\
  map (fun r => (req_callback r, req_headers r !! "User-Agent", req_meta r !! "proxy"))
      (requests_of (parse Request_url Samples.proxied_spider
                      (Samples.search_page [Some "/dp/A"] (Some "/s?page=2"))
                      (init_world Samples.zero_draws)))
  = [ (h_parse_product, nth_error USER_AGENTS 0, None);
      (h_parse, nth_error USER_AGENTS 0, None) ].
Proof.
  intros Hproduct Hnext. split; [vm_compute; reflexivity|].
  destruct (parse_held Request_url Samples.proxied_spider
              (Samples.search_page [Some "/dp/A"] (Some "/s?page=2"))
              (init_world Samples.zero_draws) [product_url] [next_url])
    as (w' & Hrun & _ & _ & Hsched).
  - discriminate.
  - repeat constructor. exact Hproduct.
  - repeat constructor. exact Hnext.
  - rewrite Hrun. cbn [requests_of]. rewrite Hsched. reflexivity.
Qed.

Lemma follow_up_requests_carry_no_proxy_witness :
  map (fun r => (req_callback r, req_headers r !! "User-Agent", req_meta r !! "proxy"))
      (requests_of (start_requests Samples.proxied_spider
                      (init_world Samples.zero_draws)))
  = [(h_parse, nth_error USER_AGENTS 0, Some "http://proxy1:8080")] /\
  map (fun r => (req_callback r, req_headers r !! "User-Agent", req_meta r !! "proxy"))
      (requests_of (parse Samples.strict_request Samples.proxied_spider
                      (Samples.search_page [Some "/dp/A"] (Some "/s?page=2"))
                      (init_world Samples.zero_draws)))
  = [ (h_parse_product, nth_error USER_AGENTS 0, None);
      (h_parse, nth_error USER_AGENTS 0, None) ].
Proof.
  exact (follow_up_requests_carry_no_proxy Samples.strict_request
           "https://www.amazon.com/dp/A" "https://www.amazon.com/s?page=2"
           eq_refl eq_refl).
Defined.

(* ===================================================================== *)
(** * Properties of the crawl policies *)
(* ===================================================================== *)

(** ** Retry *)

Section RetryLoop.

Import Retry.

Variable settings : Settings.
Variable fetch : CrawlRequest -> FetchOutcome.
Variable complete : CrawlRequest -> string -> Completion.

Local Abbreviation step := (Retry.step settings fetch complete).
Local Abbreviation steps := (Retry.steps settings fetch complete).

Lemma incremented_with_attempt (r : CrawlRequest) (a : nat) :
  incremented (with_attempt r a) = with_attempt r (S a).
Proof. reflexivity. Qed.

Lemma with_attempt_same (r : CrawlRequest) : with_attempt r (attempt r) = r.
Proof. now destruct r. Qed.

Lemma steps_drained (n : nat) (o : Orchestrator) :
  frontier o = [] -> steps n o = o.
Proof.
  intros Hempty. induction n as [|n IH]; [reflexivity|].
  simpl. unfold Retry.step. rewrite Hempty. exact IH.
Qed.

Lemma steps_add (n m : nat) (o : Orchestrator) :
  steps (n + m) o = steps m (steps n o).
Proof.
  revert o. induction n as [|n IH]; intros o; [reflexivity|].
  simpl. apply IH.
Qed.

(** A terminal failure, or a failure at the last allowed attempt:
    the request leaves the frontier and one failure is counted. *)
Lemma step_exhausted (o : Orchestrator) (r origin : CrawlRequest)
    (pending : list CrawlRequest) (e : ErrorKind) :
  frontier o = r :: pending ->
  fetch r = Failure e origin ->
  retryable e && (attempt r <? max_retries settings) = false ->
  step o =
    {| frontier := pending;
       session :=
         {| records_emitted := records_emitted (session o);
            requests_dispatched := S (requests_dispatched (session o));
            failures := S (failures (session o)) |};
       dispatch_log := dispatch_log o ++ [r] |}.
Proof.
  intros Hf Hfetch Hno. unfold Retry.step, classify.
  rewrite Hf, Hfetch, Hno. reflexivity.
Qed.

(** A retryable failure below the bound: the same request is back at
    the front with its attempt count incremented. *)
Lemma step_retry (o : Orchestrator) (r origin : CrawlRequest)
    (pending : list CrawlRequest) (e : ErrorKind) :
  frontier o = r :: pending ->
  fetch r = Failure e origin ->
  retryable e = true ->
  attempt r < max_retries settings ->
  step o =
    {| frontier := incremented r :: pending;
       session :=
         {| records_emitted := records_emitted (session o);
            requests_dispatched := S (requests_dispatched (session o));
            failures := failures (session o) |};
       dispatch_log := dispatch_log o ++ [r] |}.
Proof.
  intros Hf Hfetch He Hlt. unfold Retry.step, classify.
  rewrite Hf, Hfetch, He. apply Nat.ltb_lt in Hlt. rewrite Hlt. reflexivity.
Qed.

(** From attempt [a], a request that keeps failing with retryable
    errors is dispatched at every attempt count up to [max_retries] and
    then dropped. *)
Lemma steps_until_exhausted (r : CrawlRequest) (pending : list CrawlRequest) :
  (forall a, exists e origin,
      fetch (with_attempt r a) = Failure e origin /\ retryable e = true) ->
  forall k a o,
    a + k = max_retries settings ->
    frontier o = with_attempt r a :: pending ->
    steps (S k) o =
      {| frontier := pending;
         session :=
           {| records_emitted := records_emitted (session o);
              requests_dispatched := requests_dispatched (session o) + S k;
              failures := S (failures (session o)) |};
         dispatch_log := dispatch_log o ++ map (with_attempt r) (seq a (S k)) |}.
Proof.
  intros Hfail. induction k as [|k IH]; intros a o Hsum Hf.
  - destruct (Hfail a) as (e & origin & Hfetch & He).
    simpl Retry.steps. rewrite (step_exhausted o _ origin pending e Hf Hfetch).
    + simpl. now rewrite Nat.add_1_r.
    + rewrite He. simpl. apply Nat.ltb_ge. lia.
  - destruct (Hfail a) as (e & origin & Hfetch & He).
    change (steps (S (S k)) o) with (steps (S k) (step o)).
    rewrite (step_retry o _ origin pending e Hf Hfetch He) by (simpl; lia).
    rewrite incremented_with_attempt.
    rewrite (IH (S a)); [|lia|reflexivity].
    cbn [frontier session dispatch_log records_emitted requests_dispatched failures].
    f_equal.
    + f_equal. lia.
    + rewrite <- app_assoc. reflexivity.
Qed.

Lemma attempts_of_same_target (r : CrawlRequest) (l : list nat) :
  length (List.filter (fun q => String.eqb (target q) (target r))
                      (map (with_attempt r) l)) = length l.
Proof.
  induction l as [|a l IH]; [reflexivity|].
  simpl. rewrite String.eqb_refl. simpl. now rewrite IH.
Qed.

End RetryLoop.

Import Retry.

Lemma attempts_of_log (url : string) (o : Orchestrator) (l : list CrawlRequest)
    (o' : Orchestrator) :
  dispatch_log o' = (dispatch_log o ++ l)%list ->
  attempts_of url o' =
    attempts_of url o + length (List.filter (fun q => String.eqb (target q) url) l).
Proof.
  intros Hlog. unfold attempts_of. rewrite Hlog, List.filter_app, length_app.
  reflexivity.
Qed.

(** One turn of the loop on a frontier that holds no request for [url],
    with a completion handler that discovers none: no attempt of [url]
    is added, and the frontier still holds no request for it. *)
Lemma step_elsewhere (settings : Settings) (fetch : CrawlRequest -> FetchOutcome)
    (complete : CrawlRequest -> string -> Completion) (url : string)
    (o : Orchestrator) :
  (forall q body, Forall (fun d => target d <> url) (discovered (complete q body))) ->
  Forall (fun q => target q <> url) (frontier o) ->
  attempts_of url (step settings fetch complete o) = attempts_of url o /\
  Forall (fun q => target q <> url) (frontier (step settings fetch complete o)).
Proof.
  intros Hdisc Hfront. unfold step.
  destruct (frontier o) as [|r pending] eqn:Hf; [now rewrite Hf|].
  inversion Hfront as [|? ? Hr Hpending]; subst.
  assert (Hone : forall o', dispatch_log o' = (dispatch_log o ++ [r])%list ->
                            attempts_of url o' = attempts_of url o).
  { intros o' Hlog. rewrite (attempts_of_log url o [r] o' Hlog). simpl.
    apply String.eqb_neq in Hr. rewrite Hr. simpl. lia. }
  destruct (fetch r) as [body status final|e origin].
  - split; [now apply Hone|]. cbn [frontier].
    apply Forall_app. split; [exact Hpending | apply Hdisc].
  - unfold classify.
    destruct (retryable e && (attempt r <? max_retries settings)).
    + split; [now apply Hone|]. cbn [frontier]. constructor; [exact Hr | exact Hpending].
    + split; [now apply Hone|]. exact Hpending.
Qed.

Lemma steps_elsewhere (settings : Settings) (fetch : CrawlRequest -> FetchOutcome)
    (complete : CrawlRequest -> string -> Completion) (url : string) :
  (forall q body, Forall (fun d => target d <> url) (discovered (complete q body))) ->
  forall n o,
    Forall (fun q => target q <> url) (frontier o) ->
    attempts_of url (steps settings fetch complete n o) = attempts_of url o.
Proof.
  intros Hdisc. induction n as [|n IH]; intros o Hfront; [reflexivity|].
  simpl. destruct (step_elsewhere settings fetch complete url o Hdisc Hfront)
    as [Hsame Hfront'].
  rewrite (IH _ Hfront'). exact Hsame.
Qed.

(** C3. Wherever a request stands at the head of the frontier, with any
    requests pending behind it: if its every attempt fails with a
    retryable error, it is dispatched exactly [max_retries + 1] times in
    a row, at attempt counts 0 to [max_retries]; it is then dropped, with
    one failure counted and the pending requests left as they were.  It
    is never dispatched again: unless the same URL is pending or is
    discovered anew, the number of its attempts stays [max_retries + 1]
    however long the crawl goes on.  With the settings of the repository
    that is 6 attempts. *)
Theorem always_failing_request_attempted_max_retries_plus_one
    (settings : Settings) (fetch : CrawlRequest -> FetchOutcome)
    (complete : CrawlRequest -> string -> Completion)
    (o : Orchestrator) (r : CrawlRequest) (pending : list CrawlRequest) :
  frontier o = r :: pending ->
  attempt r = 0 ->
  (forall a, exists e origin,
      fetch (with_attempt r a) = Failure e origin /\ retryable e = true) ->
  let n := max_retries settings in
  steps settings fetch complete (n + 1) o =
    {| frontier := pending;
       session :=
         {| records_emitted := records_emitted (session o);
            requests_dispatched := requests_dispatched (session o) + (n + 1);
            failures := S (failures (session o)) |};
       dispatch_log := dispatch_log o ++ map (with_attempt r) (seq 0 (n + 1)) |} /\
  attempts_of (target r) (steps settings fetch complete (n + 1) o)
    = attempts_of (target r) o + (n + 1) /\
  (Forall (fun q => target q <> target r) pending ->
   (forall q body,
       Forall (fun d => target d <> target r) (discovered (complete q body))) ->
   forall later,
     attempts_of (target r) (steps settings fetch complete (n + 1 + later) o)
     = attempts_of (target r) o + (n + 1)) /\
  max_retries custom_settings + 1 = 6.
Proof.
  intros Hfront Hzero Hfail. cbv zeta.
  assert (Hrun : steps settings fetch complete (max_retries settings + 1) o =
            {| frontier := pending;
               session :=
                 {| records_emitted := records_emitted (session o);
                    requests_dispatched :=
                      requests_dispatched (session o) + (max_retries settings + 1);
                    failures := S (failures (session o)) |};
               dispatch_log :=
                 dispatch_log o
                 ++ map (with_attempt r) (seq 0 (max_retries settings + 1)) |}).
  { rewrite Nat.add_1_r.
    apply (steps_until_exhausted settings fetch complete r pending Hfail
             (max_retries settings) 0 o); [reflexivity|].
    rewrite Hfront, <- Hzero. now rewrite with_attempt_same. }
  assert (Hcount : attempts_of (target r)
                     (steps settings fetch complete (max_retries settings + 1) o)
                   = attempts_of (target r) o + (max_retries settings + 1)).
  { rewrite (attempts_of_log (target r) o
               (map (with_attempt r) (seq 0 (max_retries settings + 1))))
      by (now rewrite Hrun).
    now rewrite attempts_of_same_target, length_seq. }
  split; [exact Hrun|]. split; [exact Hcount|]. split; [|reflexivity].
  intros Hpending Hdisc later. rewrite steps_add.
  rewrite (steps_elsewhere settings fetch complete (target r) Hdisc later).
  - exact Hcount.
  - rewrite Hrun. exact Hpending.
Qed.

Lemma always_failing_request_attempted_max_retries_plus_one_witness :
  let o := steps custom_settings Samples.laptops_time_out Samples.no_completion
             (6 + 10) Samples.mid_crawl in
  steps custom_settings Samples.laptops_time_out Samples.no_completion 6
        Samples.mid_crawl =
    {| frontier := [Samples.phones_search];
       session := {| records_emitted := 3; requests_dispatched := 13; failures := 2 |};
       dispatch_log :=
         Samples.phones_search
         :: map (with_attempt Samples.laptops_search) [0; 1; 2; 3; 4; 5] |} /\
  attempts_of (target Samples.laptops_search) o = 6 /\
  frontier o = [].
Proof.
  destruct (always_failing_request_attempted_max_retries_plus_one
              custom_settings Samples.laptops_time_out Samples.no_completion
              Samples.mid_crawl Samples.laptops_search [Samples.phones_search]
              eq_refl eq_refl
              (fun a => ex_intro _ TransportTimeout
                          (ex_intro _ (with_attempt Samples.laptops_search a)
                             (conj eq_refl eq_refl))))
    as (Hrun & _ & Hlater & _).
  cbv zeta. split; [exact Hrun|]. split; [|reflexivity].
  apply (Hlater ltac:(repeat constructor; discriminate)
                ltac:(intros; constructor) 10).
Defined.

Lemma retryable_kinds (e : ErrorKind) :
  retryable e = true <->
  e = TransportTimeout \/ e = TransportReset \/
  exists status, e = HTTPError status /\
                 ((500 <= status <= 599)%Z \/ status = 429%Z).
Proof.
  split.
  - destruct e as [| |status|]; simpl; intros H; auto; [|discriminate].
    right. right. exists status. split; [reflexivity|].
    apply orb_true_iff in H. destruct H as [H|H].
    + apply andb_true_iff in H. destruct H as [H1 H2].
      left. split; [now apply Z.leb_le | now apply Z.leb_le].
    + right. now apply Z.eqb_eq.
  - intros [->|[->|(status & -> & H)]]; [reflexivity|reflexivity|].
    simpl. apply orb_true_iff. destruct H as [[H1 H2]|H].
    + left. apply andb_true_iff. split; now apply Z.leb_le.
    + right. now apply Z.eqb_eq.
Qed.

(** C4. A failure is retryable exactly when it is a transport timeout, a
    connection reset, an HTTP status from 500 to 599, or HTTP 429; every
    other HTTP 4xx status and a parse error are terminal.  Wherever a
    request stands at the head of the frontier, whatever its attempt
    count and whatever is pending behind it: if its fetch fails with a
    terminal error, that one dispatch is its last; it is dropped at once,
    with one failure counted and the pending requests left as they were,
    and unless the same URL is pending or is discovered anew it is never
    dispatched again. *)
Theorem terminal_failure_exhausted_after_one_attempt
    (settings : Settings) (fetch : CrawlRequest -> FetchOutcome)
    (complete : CrawlRequest -> string -> Completion) :
  (forall e,
      retryable e = true <->
      e = TransportTimeout \/ e = TransportReset \/
      exists status, e = HTTPError status /\
                     ((500 <= status <= 599)%Z \/ status = 429%Z)) /\
  retryable ParseError = false /\
  (forall status,
      (400 <= status <= 499)%Z -> status <> 429%Z ->
      retryable (HTTPError status) = false) /\
  (forall o r pending e origin,
      frontier o = r :: pending ->
      fetch r = Failure e origin ->
      retryable e = false ->
      step settings fetch complete o =
        {| frontier := pending;
           session :=
             {| records_emitted := records_emitted (session o);
                requests_dispatched := S (requests_dispatched (session o));
                failures := S (failures (session o)) |};
           dispatch_log := dispatch_log o ++ [r] |} /\
      attempts_of (target r) (step settings fetch complete o)
        = attempts_of (target r) o + 1 /\
      (Forall (fun q => target q <> target r) pending ->
       (forall q body,
           Forall (fun d => target d <> target r) (discovered (complete q body))) ->
       forall later,
         attempts_of (target r) (steps settings fetch complete (1 + later) o)
         = attempts_of (target r) o + 1)).
Proof.
  split; [exact retryable_kinds|]. split; [reflexivity|]. split.
  - intros status Hrange Hne. simpl. apply orb_false_iff. split.
    + apply andb_false_iff. left. apply Z.leb_gt. lia.
    + now apply Z.eqb_neq.
  - intros o r pending e origin Hfront Hfetch Hterm.
    assert (Hstep : step settings fetch complete o =
              {| frontier := pending;
                 session :=
                   {| records_emitted := records_emitted (session o);
                      requests_dispatched := S (requests_dispatched (session o));
                      failures := S (failures (session o)) |};
                 dispatch_log := dispatch_log o ++ [r] |}).
    { apply (step_exhausted settings fetch complete o r origin pending e Hfront Hfetch).
      now rewrite Hterm. }
    assert (Hcount : attempts_of (target r) (step settings fetch complete o)
                     = attempts_of (target r) o + 1).
    { rewrite (attempts_of_log (target r) o [r]) by (now rewrite Hstep).
      simpl. now rewrite String.eqb_refl. }
    split; [exact Hstep|]. split; [exact Hcount|].
    intros Hpending Hdisc later. cbn [Nat.add steps].
    rewrite (steps_elsewhere settings fetch complete (target r) Hdisc later).
    + exact Hcount.
    + rewrite Hstep. exact Hpending.
Qed.

Lemma terminal_failure_exhausted_after_one_attempt_witness :
  retryable (HTTPError 404) = false /\
  step custom_settings Samples.laptops_not_found Samples.no_completion
       Samples.mid_crawl =
    {| frontier := [Samples.phones_search];
       session := {| records_emitted := 3; requests_dispatched := 8; failures := 2 |};
       dispatch_log := [Samples.phones_search; Samples.laptops_search] |} /\
  attempts_of (target Samples.laptops_search)
    (steps custom_settings Samples.laptops_not_found Samples.no_completion (1 + 10)
           Samples.mid_crawl) = 1.
Proof.
  destruct (terminal_failure_exhausted_after_one_attempt
              custom_settings Samples.laptops_not_found Samples.no_completion)
    as (_ & _ & H4xx & Hrun).
  split; [apply H4xx; [lia | discriminate]|].
  destruct (Hrun Samples.mid_crawl Samples.laptops_search [Samples.phones_search]
              (HTTPError 404) Samples.laptops_search eq_refl eq_refl eq_refl)
    as (Hstep & _ & Hlater).
  split; [exact Hstep|].
  apply (Hlater ltac:(repeat constructor; discriminate)
                ltac:(intros; constructor) 10).
Defined.

(** ** Response cache *)

Import Cache.

Lemma get_some_inv (now : Z) (entries : gmap string CacheEntry) (key : string)
    (e : CacheEntry) :
  get now entries key = Some e <->
  entries !! key = Some e /\ (now - stored_at e < expiration e)%Z.
Proof.
  unfold get. destruct (entries !! key) as [e'|] eqn:Hlook.
  - destruct (now - stored_at e' <? expiration e')%Z eqn:Hfresh.
    + apply Z.ltb_lt in Hfresh. split.
      * intros [= ->]. auto.
      * intros [[= ->] _]. reflexivity.
    + apply Z.ltb_ge in Hfresh. split; [discriminate|].
      intros [[= ->] Hlt]. lia.
  - split; [discriminate | intros [H _]; discriminate].
Qed.

Lemma get_expired (now : Z) (entries : gmap string CacheEntry) (key : string)
    (e : CacheEntry) :
  entries !! key = Some e ->
  (expiration e <= now - stored_at e)%Z ->
  get now entries key = None.
Proof.
  intros Hlook Hold. unfold get. rewrite Hlook.
  apply Z.ltb_ge in Hold. now rewrite Hold.
Qed.

(** C5. An entry is served by [get] only while
    [now - stored_at < expiration].  For a response stored at time [t]
    under the configured TTL: at any time before [t + TTL] it is served,
    and fetching through the cache returns it without a dispatch; at or
    after [t + TTL] the result is absent.  The TTL of the repository's
    settings is 86400. *)
Theorem cache_serves_entry_only_within_ttl
    (settings : Settings) (entries : gmap string CacheEntry)
    (key response : string) (t now : Z)
    (transport : string -> string) (sent : nat) :
  let ttl := cache_ttl settings in
  let entries' := put ttl t entries key response in
  let entry := {| request_key := key; cached_response := response;
                  stored_at := t; expiration := ttl |} in
  (forall k e, get now entries k = Some e ->
               entries !! k = Some e /\ (now - stored_at e < expiration e)%Z) /\
  (forall k e, entries !! k = Some e ->
               (stored_at e + expiration e <= now)%Z ->
               get now entries k = None) /\
  ((now - t < ttl)%Z ->
   get now entries' key = Some entry /\
   fetch_through ttl transport now key {| store := entries'; dispatches := sent |}
   = (response, {| store := entries'; dispatches := sent |})) /\
  ((t + ttl <= now)%Z -> get now entries' key = None) /\
  cache_ttl custom_settings = 86400%Z.
Proof.
  cbv zeta. split; [|split; [|split; [|split]]].
  - intros k e H. now apply get_some_inv.
  - intros k e Hlook Hold. apply (get_expired now entries k e Hlook). lia.
  - intros Hfresh.
    assert (Hget : get now (put (cache_ttl settings) t entries key response) key
                   = Some {| request_key := key; cached_response := response;
                             stored_at := t; expiration := cache_ttl settings |}).
    { apply get_some_inv. split; [apply lookup_insert_eq | exact Hfresh]. }
    split; [exact Hget|]. unfold fetch_through. cbn [store]. now rewrite Hget.
  - intros Hold.
    apply (get_expired now _ key
             {| request_key := key; cached_response := response;
                stored_at := t; expiration := cache_ttl settings |}).
    + apply lookup_insert_eq.
    + simpl. lia.
  - reflexivity.
Qed.

Lemma cache_serves_entry_only_within_ttl_witness :
  let entries' := put 86400 1000 ∅ "GET https://www.amazon.com/s?k=laptops" "<html>" in
  (get 87399 entries' "GET https://www.amazon.com/s?k=laptops"
   = Some {| request_key := "GET https://www.amazon.com/s?k=laptops";
             cached_response := "<html>"; stored_at := 1000; expiration := 86400 |} /\
   fetch_through 86400 (fun _ => "<other>") 87399
     "GET https://www.amazon.com/s?k=laptops" {| store := entries'; dispatches := 1 |}
   = ("<html>", {| store := entries'; dispatches := 1 |})) /\
  get 87400 entries' "GET https://www.amazon.com/s?k=laptops" = None.
Proof.
  split.
  - exact (proj1 (proj2 (proj2
             (cache_serves_entry_only_within_ttl custom_settings ∅
                "GET https://www.amazon.com/s?k=laptops" "<html>" 1000 87399
                (fun _ => "<other>") 1)))
           ltac:(vm_compute; reflexivity)).
  - exact (proj1 (proj2 (proj2 (proj2
             (cache_serves_entry_only_within_ttl custom_settings ∅
                "GET https://www.amazon.com/s?k=laptops" "<html>" 1000 87400
                (fun _ => "<other>") 1))))
           ltac:(vm_compute; discriminate)).
Defined.

(* ===================================================================== *)
(** * Further properties of the spider *)
(* ===================================================================== *)

Import Views.

(** ** [str.strip] as the spider uses it *)

Lemma rev_string_involutive (s : string) : rev_string (rev_string s) = s.
Proof.
  unfold rev_string. rewrite list_ascii_of_string_of_list_ascii.
  rewrite rev_involutive. apply string_of_list_ascii_of_string.
Qed.

Lemma prefix_append (p u post : string) :
  String.prefix p u = true -> String.prefix p (u ++ post) = true.
Proof.
  revert u. induction p as [|a p IH]; intros u H;
    [destruct (u ++ post); reflexivity|].
  destruct u as [|b u]; simpl in *; [discriminate|].
  destruct (ascii_dec a b); [now apply IH | discriminate].
Qed.

Lemma match_len_empty (pats : list string) :
  Forall (fun p => p <> EmptyString) pats -> match_len pats EmptyString = 0.
Proof.
  induction 1 as [|p pats Hp _ IH]; [reflexivity|].
  simpl. destruct p; [congruence | exact IH].
Qed.

(** A string that starts with none of the patterns keeps that property
    when it is cut short. *)
Lemma match_len_zero_prefix (pats : list string) (u post : string) :
  Forall (fun p => p <> EmptyString) pats ->
  match_len pats (u ++ post) = 0 -> match_len pats u = 0.
Proof.
  induction 1 as [|p pats Hp _ IH]; [reflexivity|].
  simpl. destruct (String.prefix p u) eqn:Hpu.
  - rewrite (prefix_append p u post Hpu). destruct p; [congruence | discriminate].
  - destruct (String.prefix p (u ++ post)).
    + destruct p; [congruence | discriminate].
    + exact IH.
Qed.

Lemma drop_leading_fixed (pats : list string) (s : string) :
  match_len pats s = 0 -> drop_leading pats 0 s = s.
Proof. intros H. destruct s as [|c s]; [reflexivity|]. simpl. now rewrite H. Qed.

Lemma drop_leading_clean (pats : list string) (s : string) :
  Forall (fun p => p <> EmptyString) pats ->
  forall skip, match_len pats (drop_leading pats skip s) = 0.
Proof.
  intros Hpats. induction s as [|c s IH]; intros skip.
  - simpl. now apply match_len_empty.
  - destruct skip as [|k]; [|apply IH].
    cbn [drop_leading].
    destruct (match_len pats (String c s)) as [|k] eqn:Hm; [exact Hm | apply IH].
Qed.

Lemma drop_leading_suffix (pats : list string) (s : string) :
  forall skip, exists pre, s = pre ++ drop_leading pats skip s.
Proof.
  induction s as [|c s IH]; intros skip.
  - exists EmptyString. reflexivity.
  - destruct skip as [|k].
    + cbn [drop_leading].
      destruct (match_len pats (String c s)) as [|k].
      * exists EmptyString. reflexivity.
      * destruct (IH k) as [pre Hpre]. exists (String c pre).
        change (String c s = String c (pre ++ drop_leading pats k s)).
        f_equal. exact Hpre.
    + destruct (IH k) as [pre Hpre]. exists (String c pre).
      change (String c s = String c (pre ++ drop_leading pats k s)).
      f_equal. exact Hpre.
Qed.

Lemma rev_string_append (a b : string) :
  rev_string (a ++ b) = rev_string b ++ rev_string a.
Proof.
  unfold rev_string.
  assert (Happ : forall x y, list_ascii_of_string (x ++ y)
                             = (list_ascii_of_string x ++ list_ascii_of_string y)%list).
  { induction x as [|c x IHx]; intros y; simpl; [reflexivity | now rewrite IHx]. }
  assert (Hstr : forall l m, string_of_list_ascii (l ++ m)%list
                             = string_of_list_ascii l ++ string_of_list_ascii m).
  { induction l as [|c l IHl]; intros m; simpl; [reflexivity | now rewrite IHl]. }
  rewrite Happ, rev_app_distr. apply Hstr.
Qed.

Lemma whitespace_nonempty : Forall (fun p => p <> EmptyString) whitespace.
Proof. unfold whitespace. repeat constructor; discriminate. Qed.

Lemma rev_whitespace_nonempty :
  Forall (fun p => p <> EmptyString) (map rev_string whitespace).
Proof. unfold whitespace. repeat constructor; discriminate. Qed.

(** [rstrip] cuts a string short: the result is a prefix of the input. *)
Lemma rstrip_prefix (s : string) : exists post, s = rstrip s ++ post.
Proof.
  unfold rstrip.
  destruct (drop_leading_suffix (map rev_string whitespace) (rev_string s) 0)
    as [pre Hpre].
  exists (rev_string pre).
  rewrite <- rev_string_append, <- Hpre. symmetry. apply rev_string_involutive.
Qed.

Lemma strip_starts_clean (s : string) : match_len whitespace (strip s) = 0.
Proof.
  unfold strip. destruct (rstrip_prefix (lstrip s)) as [post Hpost].
  apply (match_len_zero_prefix whitespace _ post whitespace_nonempty).
  rewrite <- Hpost. unfold lstrip.
  apply drop_leading_clean, whitespace_nonempty.
Qed.

Lemma strip_ends_clean (s : string) :
  match_len (map rev_string whitespace) (rev_string (strip s)) = 0.
Proof.
  unfold strip, rstrip. rewrite rev_string_involutive.
  apply drop_leading_clean, rev_whitespace_nonempty.
Qed.

Lemma strip_fixed (s : string) :
  match_len whitespace s = 0 ->
  match_len (map rev_string whitespace) (rev_string s) = 0 ->
  strip s = s.
Proof.
  intros Hstart Hend. unfold strip, lstrip, rstrip.
  rewrite (drop_leading_fixed _ _ Hstart), (drop_leading_fixed _ _ Hend).
  apply rev_string_involutive.
Qed.

(** What [strip] returns neither starts nor ends with a whitespace
    character, and stripping it again changes nothing. *)
Lemma strip_clean_and_idempotent (s : string) :
  starts_clean (strip s) = true /\
  ends_clean (strip s) = true /\
  strip (strip s) = strip s.
Proof.
  unfold starts_clean, ends_clean.
  rewrite strip_starts_clean, strip_ends_clean.
  split; [reflexivity|]. split; [reflexivity|].
  apply strip_fixed; [apply strip_starts_clean | apply strip_ends_clean].
Qed.

Lemma truthy_nonempty (s : string) : truthy s = true <-> s <> EmptyString.
Proof. destruct s; simpl; split; congruence. Qed.

(** The item [parse_product] returns, whatever the state it runs in. *)
Lemma parse_product_returns (json_loads : string -> option Json.value)
    (response : Response) (w : World) :
  exists item,
    parse_product json_loads response w =
      Ok item (mkWorld (rng w) (S (total_items w)) (scheduled w)) /\
    asin item = match search_dp_asin (url response) with
                | Some group1 => group1
                | None => extract response q_asin
                end /\
    title item = extract response q_title /\
    price item = extract response q_price /\
    rating item = extract response q_rating /\
    reviews item = extract response q_reviews /\
    features item =
      map strip (List.filter (fun f => truthy (strip f))
                             (css_getall response q_features)) /\
    description item = extract response q_desc /\
    images item = product_images json_loads response /\
    item_url item = url response.
Proof. eexists. split; [reflexivity|]. repeat split. Qed.

Lemma prefix_split (p s : string) :
  String.prefix p s = true -> s = p ++ drop_chars (String.length p) s.
Proof.
  revert s. induction p as [|a p IH]; intros s H; [now destruct s|].
  destruct s as [|b s]; simpl in H; [discriminate|].
  destruct (ascii_dec a b) as [->|]; [|discriminate].
  cbn [String.length drop_chars].
  change (String b s = String b (p ++ drop_chars (String.length p) s)).
  f_equal. now apply IH.
Qed.

Lemma string_app_nil_r (s : string) : s ++ EmptyString = s.
Proof.
  induction s as [|c s IH]; [reflexivity|].
  change (String c (s ++ EmptyString) = String c s). now rewrite IH.
Qed.

Lemma string_app_assoc (a b c : string) : (a ++ b) ++ c = a ++ (b ++ c).
Proof.
  induction a as [|x a IH]; [reflexivity|].
  change (String x ((a ++ b) ++ c) = String x (a ++ (b ++ c))). now rewrite IH.
Qed.

Lemma made_of_one (pats : list string) (p : string) :
  In p pats -> made_of pats p.
Proof.
  intros Hin. rewrite <- (string_app_nil_r p).
  apply made_of_cons; [exact Hin | apply made_of_nil].
Qed.

Lemma made_of_app (pats : list string) (a b : string) :
  made_of pats a -> made_of pats b -> made_of pats (a ++ b).
Proof.
  induction 1 as [|p s Hin _ IH]; intros Hb; [exact Hb|].
  rewrite string_app_assoc. apply made_of_cons; [exact Hin | now apply IH].
Qed.

Lemma made_of_rev (pats : list string) (x : string) :
  made_of (map rev_string pats) x -> made_of pats (rev_string x).
Proof.
  induction 1 as [|p s Hin _ IH]; [apply made_of_nil|].
  apply in_map_iff in Hin. destruct Hin as (q & <- & Hq).
  rewrite rev_string_append, rev_string_involutive.
  apply made_of_app; [exact IH | now apply made_of_one].
Qed.

(** The pattern that [match_len] found at the start of a string. *)
Lemma match_len_pattern (pats : list string) (s : string) (k : nat) :
  match_len pats s = S k ->
  exists p, In p pats /\ String.length p = S k /\ String.prefix p s = true.
Proof.
  induction pats as [|p pats IH]; [discriminate|].
  simpl. destruct (String.prefix p s) eqn:Hp.
  - intros Hlen. exists p. split; [now left|]. split; [exact Hlen | exact Hp].
  - intros H. destruct (IH H) as (q & Hin & Hlen & Hq).
    exists q. split; [now right|]. split; assumption.
Qed.

Lemma drop_leading_skip (pats : list string) (s : string) :
  forall skip,
    drop_leading pats skip s = drop_leading pats 0 (drop_chars skip s).
Proof.
  induction s as [|c s IH]; intros skip.
  - destruct skip; reflexivity.
  - destruct skip as [|k]; [reflexivity|].
    cbn [drop_leading drop_chars]. apply IH.
Qed.

Lemma drop_chars_length (s : string) :
  forall k, String.length (drop_chars k s) <= String.length s.
Proof.
  induction s as [|c s IH]; intros k.
  - destruct k; simpl; lia.
  - destruct k as [|k]; [simpl; lia|].
    cbn [drop_chars String.length]. specialize (IH k). lia.
Qed.

(** What [drop_leading] cuts off is a sequence of the characters it
    looks for. *)
Lemma drop_leading_decompose (pats : list string) :
  forall n s,
    String.length s <= n ->
    exists pre, s = pre ++ drop_leading pats 0 s /\ made_of pats pre.
Proof.
  induction n as [|n IH]; intros s Hlen.
  - destruct s; [|simpl in Hlen; lia].
    exists EmptyString. split; [reflexivity | apply made_of_nil].
  - destruct s as [|c s].
    + exists EmptyString. split; [reflexivity | apply made_of_nil].
    + cbn [drop_leading].
      destruct (match_len pats (String c s)) as [|k] eqn:Hm.
      * exists EmptyString. split; [reflexivity | apply made_of_nil].
      * destruct (match_len_pattern pats _ k Hm) as (p & Hin & Hp & Hprefix).
        apply prefix_split in Hprefix. rewrite Hp in Hprefix.
        cbn [drop_chars] in Hprefix.
        rewrite drop_leading_skip.
        destruct (IH (drop_chars k s)) as (pre & Hpre & Hmade).
        { pose proof (drop_chars_length s k). simpl in Hlen. lia. }
        exists (p ++ pre). split.
        -- rewrite string_app_assoc, <- Hpre. exact Hprefix.
        -- now apply made_of_cons.
Qed.

(** [strip] cuts whitespace, and only whitespace, at the two ends. *)
Lemma strip_decompose (s : string) :
  exists pre post,
    s = pre ++ strip s ++ post /\ only_spaces pre /\ only_spaces post.
Proof.
  unfold strip, only_spaces.
  destruct (drop_leading_decompose whitespace (String.length s) s (le_n _))
    as (pre & Hpre & Hmade_pre).
  fold (lstrip s) in Hpre.
  destruct (drop_leading_decompose (map rev_string whitespace)
              (String.length (rev_string (lstrip s))) (rev_string (lstrip s)) (le_n _))
    as (tail & Htail & Hmade_tail).
  exists pre, (rev_string tail). split; [|split].
  - rewrite Hpre at 1. f_equal.
    rewrite <- (rev_string_involutive (lstrip s)) at 1.
    rewrite Htail at 1. rewrite rev_string_append. reflexivity.
  - exact Hmade_pre.
  - now apply made_of_rev.
Qed.

(** What [extract] makes of the text a query finds. *)
Lemma extract_spec (response : Response) (q : string) :
  starts_clean (extract response q) = true /\
  ends_clean (extract response q) = true /\
  (xpath_get response q = None -> extract response q = EmptyString) /\
  (forall found,
      xpath_get response q = Some found ->
      (exists pre post,
          found = pre ++ extract response q ++ post /\
          only_spaces pre /\ only_spaces post) /\
      (starts_clean found = true -> ends_clean found = true ->
       extract response q = found)).
Proof.
  unfold extract.
  destruct (strip_clean_and_idempotent (default EmptyString (xpath_get response q)))
    as (H1 & H2 & _).
  split; [exact H1|]. split; [exact H2|]. split.
  - intros ->. reflexivity.
  - intros found ->. simpl. split; [apply strip_decompose|].
    unfold starts_clean, ends_clean. intros Hs He.
    apply Nat.eqb_eq in Hs, He. now apply strip_fixed.
Qed.

(** X1. Each text field of an item (title, price, rating, review count,
    description) is the text its query found with the whitespace at the
    two ends cut off, and nothing else changed: the text found is the
    field with a run of whitespace characters before it and a run of
    whitespace characters after it, the field itself neither starts nor
    ends with a whitespace character, it is the text found when that has
    no whitespace at its ends, and it is the empty string when nothing
    was found. *)
Theorem item_text_fields_are_stripped
    (json_loads : string -> option Json.value) (response : Response) (w : World) :
  exists item w',
    parse_product json_loads response w = Ok item w' /\
    Forall (fun qv : string * string =>
              let (q, v) := qv in
              starts_clean v = true /\ ends_clean v = true /\
              (xpath_get response q = None -> v = EmptyString) /\
              (forall found,
                  xpath_get response q = Some found ->
                  (exists pre post,
                      found = pre ++ v ++ post /\
                      only_spaces pre /\ only_spaces post) /\
                  (starts_clean found = true -> ends_clean found = true ->
                   v = found)))
           [ (q_title, title item); (q_price, price item);
             (q_rating, rating item); (q_reviews, reviews item);
             (q_desc, description item) ].
Proof.
  destruct (parse_product_returns json_loads response w)
    as (item & Hrun & _ & Ht & Hp & Hr & Hv & _ & Hd & _).
  exists item. eexists. split; [exact Hrun|].
  rewrite Ht, Hp, Hr, Hv, Hd.
  repeat (apply List.Forall_cons; [apply extract_spec|]). apply List.Forall_nil.
Qed.

Lemma item_text_fields_are_stripped_witness :
  exists item w',
    parse_product Samples.reject_all
      {| url := "https://www.amazon.com/gp/product/x";
         urljoin := fun rel => Some rel;
         css := fun _ => [];
         css_get := fun _ => None;
         css_getall := fun _ => [];
         xpath_get := fun q => if String.eqb q q_title then Some "  Laptop 15   "
                               else if String.eqb q q_price then Some "$499.00"
                               else None;
         xpath_re_first := fun _ _ => None |}
      (init_world Samples.zero_draws) = Ok item w' /\
    title item = "Laptop 15" /\ price item = "$499.00" /\ rating item = EmptyString.
Proof.
  destruct (item_text_fields_are_stripped Samples.reject_all
              {| url := "https://www.amazon.com/gp/product/x";
                 urljoin := fun rel => Some rel;
                 css := fun _ => [];
                 css_get := fun _ => None;
                 css_getall := fun _ => [];
                 xpath_get := fun q => if String.eqb q q_title then Some "  Laptop 15   "
                                       else if String.eqb q q_price then Some "$499.00"
                                       else None;
                 xpath_re_first := fun _ _ => None |}
              (init_world Samples.zero_draws))
    as (item & w' & Hrun & Hall).
  exists item, w'. split; [exact Hrun|].
  inversion Hall as [|? ? Htitle Hrest]; subst.
  inversion Hrest as [|? ? Hprice Hrest2]; subst.
  inversion Hrest2 as [|? ? Hrating _]; subst.
  split; [|split].
  - injection Hrun as <- _. reflexivity.
  - destruct Hprice as (_ & _ & _ & Hfound).
    exact (proj2 (Hfound "$499.00" eq_refl) eq_refl eq_refl).
  - destruct Hrating as (_ & _ & Hnone & _). exact (Hnone eq_refl).
Defined.

Lemma stripped_features_spec (raw : list string) :
  let kept := map strip (List.filter (fun f => truthy (strip f)) raw) in
  Forall (fun f => f <> EmptyString /\ starts_clean f = true /\ ends_clean f = true)
         kept /\
  sublist kept (map strip raw) /\
  (forall f, In f raw -> strip f <> EmptyString -> In (strip f) kept).
Proof.
  cbv zeta. induction raw as [|f raw (IHall & IHsub & IHin)].
  - split; [constructor|]. split; [constructor|]. intros f [].
  - cbn [List.filter map].
    destruct (truthy (strip f)) eqn:Hf; cbn [map].
    + split; [|split].
      * constructor; [|exact IHall].
        destruct (strip_clean_and_idempotent f) as (H1 & H2 & _).
        split; [now apply truthy_nonempty | now split].
      * now constructor.
      * intros g [<-|Hg] Hne; [now left | right; now apply IHin].
    + split; [exact IHall|]. split; [now constructor|].
      intros g [<-|Hg] Hne; [|now apply IHin].
      apply truthy_nonempty in Hne. congruence.
Qed.

(** X2. The feature bullets of an item: none is empty, none starts or
    ends with a whitespace character, they keep the order of the page,
    and every bullet of the page that has content is among them. *)
Theorem item_features_nonempty_stripped_in_order
    (json_loads : string -> option Json.value) (response : Response) (w : World) :
  exists item w',
    parse_product json_loads response w = Ok item w' /\
    Forall (fun f => f <> EmptyString /\ starts_clean f = true /\ ends_clean f = true)
           (features item) /\
    sublist (features item) (map strip (css_getall response q_features)) /\
    (forall f, In f (css_getall response q_features) ->
               strip f <> EmptyString -> In (strip f) (features item)).
Proof.
  destruct (parse_product_returns json_loads response w)
    as (item & Hrun & _ & _ & _ & _ & _ & Hf & _).
  exists item. eexists. split; [exact Hrun|]. rewrite Hf.
  apply stripped_features_spec.
Qed.

Lemma item_features_nonempty_stripped_in_order_witness :
  exists item w',
    parse_product Samples.reject_all
      {| url := "https://www.amazon.com/dp/B08N5WRWNW";
         urljoin := fun rel => Some rel;
         css := fun _ => [];
         css_get := fun _ => None;
         css_getall := fun _ => ["  16 GB RAM "; "   "; "1 TB SSD"];
         xpath_get := fun _ => None;
         xpath_re_first := fun _ _ => None |}
      (init_world Samples.zero_draws) = Ok item w' /\
    features item = ["16 GB RAM"; "1 TB SSD"] /\
    In (strip "  16 GB RAM ") (features item).
Proof.
  destruct (item_features_nonempty_stripped_in_order Samples.reject_all
              {| url := "https://www.amazon.com/dp/B08N5WRWNW";
                 urljoin := fun rel => Some rel;
                 css := fun _ => [];
                 css_get := fun _ => None;
                 css_getall := fun _ => ["  16 GB RAM "; "   "; "1 TB SSD"];
                 xpath_get := fun _ => None;
                 xpath_re_first := fun _ _ => None |}
              (init_world Samples.zero_draws))
    as (item & w' & Hrun & _ & _ & Hin).
  exists item, w'. split; [exact Hrun|]. split.
  - injection Hrun as <- _. reflexivity.
  - apply Hin; [left; reflexivity | discriminate].
Defined.

(** ** The ASIN read from the product URL *)

Lemma take_asin_sound (n : nat) (s a : string) :
  take_asin n s = Some a ->
  String.length a = n /\ all_chars is_asin_char a = true /\
  exists post, s = a ++ post.
Proof.
  revert s a. induction n as [|n IH]; intros s a H.
  - injection H as <-. split; [reflexivity|]. split; [reflexivity|].
    exists s. reflexivity.
  - destruct s as [|c s]; [discriminate|]. simpl in H.
    destruct (is_asin_char c) eqn:Hc; [|discriminate].
    destruct (take_asin n s) as [a'|] eqn:Ha; [|discriminate].
    injection H as <-. destruct (IH s a' Ha) as (Hlen & Hall & post & Hpost).
    split; [simpl; now rewrite Hlen|]. split; [simpl; now rewrite Hc|].
    exists post. change (String c s = String c (a' ++ post)). now rewrite <- Hpost.
Qed.

Lemma take_asin_complete (a post : string) :
  all_chars is_asin_char a = true ->
  take_asin (String.length a) (a ++ post) = Some a.
Proof.
  induction a as [|c a IH]; intros Hall; [reflexivity|].
  simpl in Hall. apply andb_true_iff in Hall. destruct Hall as [Hc Ha].
  cbn [String.length]. change (String c a ++ post) with (String c (a ++ post)).
  cbn [take_asin]. rewrite Hc, (IH Ha). reflexivity.
Qed.

Lemma search_dp_asin_unfold (s : string) :
  search_dp_asin s =
    match (if String.prefix "/dp/" s then take_asin 10 (drop_chars 4 s) else None) with
    | Some a => Some a
    | None => match s with
              | EmptyString => None
              | String _ s' => search_dp_asin s'
              end
    end.
Proof. destruct s; reflexivity. Qed.

(** When the search for the ASIN in a URL succeeds, the result is ten
    characters, each an upper-case letter or a digit, and it stands in
    the URL right after some [/dp/]. *)
Lemma search_dp_asin_sound (s a : string) :
  search_dp_asin s = Some a ->
  String.length a = 10 /\
  all_chars is_asin_char a = true /\
  exists pre post, s = pre ++ "/dp/" ++ a ++ post.
Proof.
  revert a. induction s as [|c s IH]; intros a H.
  - discriminate.
  - rewrite search_dp_asin_unfold in H.
    destruct (String.prefix "/dp/" (String c s)) eqn:Hp.
    + destruct (take_asin 10 (drop_chars 4 (String c s))) as [a'|] eqn:Ha.
      * injection H as <-.
        destruct (take_asin_sound _ _ _ Ha) as (Hlen & Hall & post & Hpost).
        split; [exact Hlen|]. split; [exact Hall|].
        exists EmptyString, post. rewrite <- Hpost.
        exact (prefix_split "/dp/" _ Hp).
      * destruct (IH a H) as (Hlen & Hall & pre & post & Heq).
        split; [exact Hlen|]. split; [exact Hall|].
        exists (String c pre), post.
        change (String c s = String c (pre ++ "/dp/" ++ a ++ post)).
        now rewrite <- Heq.
    + destruct (IH a H) as (Hlen & Hall & pre & post & Heq).
      split; [exact Hlen|]. split; [exact Hall|].
      exists (String c pre), post.
      change (String c s = String c (pre ++ "/dp/" ++ a ++ post)).
      now rewrite <- Heq.
Qed.

Lemma prefix_nil (s : string) : String.prefix EmptyString s = true.
Proof. destruct s; reflexivity. Qed.

(** The ten characters cannot run over a slash. *)
Lemma take_asin_cut (n : nat) (q r x : string) :
  take_asin n (q ++ String "/" r) = Some x -> take_asin n q = Some x.
Proof.
  revert q x. induction n as [|n IH]; intros q x H; [exact H|].
  destruct q as [|c q].
  - discriminate.
  - change (String c q ++ String "/" r) with (String c (q ++ String "/" r)) in H.
    cbn [take_asin] in *. destruct (is_asin_char c); [|discriminate].
    destruct (take_asin n (q ++ String "/" r)) as [y|] eqn:Hy; [|discriminate].
    now rewrite (IH q y Hy).
Qed.

(** A match that starts before a later [/dp/] ends before it. *)
Lemma asin_here_cut (p t x : string) :
  p <> EmptyString ->
  (if String.prefix "/dp/" (p ++ "/dp/" ++ t)
   then take_asin 10 (drop_chars 4 (p ++ "/dp/" ++ t)) else None) = Some x ->
  (if String.prefix "/dp/" p then take_asin 10 (drop_chars 4 p) else None) = Some x.
Proof.
  intros Hne H.
  destruct p as [|c1 [|c2 [|c3 [|c4 p]]]]; [congruence| | | |];
    lazy beta iota zeta delta [String.append String.prefix drop_chars] in H;
    fold String.append String.prefix in H;
    lazy beta iota zeta delta [String.prefix drop_chars];
    fold String.prefix;
    repeat match type of H with
           | context [ascii_dec ?a ?b] =>
               destruct (ascii_dec a b); try discriminate; try congruence
           end.
  rewrite prefix_nil in *. exact (take_asin_cut 10 p _ x H).
Qed.

(** A URL that holds [/dp/] followed by ten upper-case letters or digits
    always gives an ASIN; the first such place of the URL is the one
    read: when nothing before it matches, the ASIN found is the one
    written there. *)
Lemma search_dp_asin_complete (pre a post : string) :
  String.length a = 10 ->
  all_chars is_asin_char a = true ->
  (exists found, search_dp_asin (pre ++ "/dp/" ++ a ++ post) = Some found) /\
  (search_dp_asin pre = None ->
   search_dp_asin (pre ++ "/dp/" ++ a ++ post) = Some a).
Proof.
  intros Hlen Hall.
  assert (Hhere : search_dp_asin ("/dp/" ++ a ++ post) = Some a).
  { rewrite search_dp_asin_unfold.
    assert (Hp : String.prefix "/dp/" ("/dp/" ++ a ++ post) = true).
    { cbn. apply prefix_nil. }
    rewrite Hp.
    change (drop_chars 4 ("/dp/" ++ a ++ post)) with (a ++ post).
    rewrite <- Hlen, (take_asin_complete a post Hall). reflexivity. }
  split.
  - induction pre as [|c pre [found IH]].
    + exists a. exact Hhere.
    + change (String c pre ++ "/dp/" ++ a ++ post)
        with (String c (pre ++ "/dp/" ++ a ++ post)).
      rewrite search_dp_asin_unfold.
      destruct (if String.prefix "/dp/" (String c (pre ++ "/dp/" ++ a ++ post))
                then take_asin 10 (drop_chars 4 (String c (pre ++ "/dp/" ++ a ++ post)))
                else None) as [early|].
      * exists early. reflexivity.
      * exists found. exact IH.
  - induction pre as [|c pre IH]; intros Hnone; [exact Hhere|].
    rewrite search_dp_asin_unfold in Hnone.
    destruct (if String.prefix "/dp/" (String c pre)
              then take_asin 10 (drop_chars 4 (String c pre)) else None)
      as [early|] eqn:Hearly; [discriminate|].
    rewrite search_dp_asin_unfold.
    destruct (if String.prefix "/dp/" (String c pre ++ "/dp/" ++ a ++ post)
              then take_asin 10 (drop_chars 4 (String c pre ++ "/dp/" ++ a ++ post))
              else None) as [x|] eqn:Hx.
    + apply asin_here_cut in Hx; [congruence | discriminate].
    + exact (IH Hnone).
Qed.

(** X3. The ASIN of an item comes from the URL first: when the URL holds
    [/dp/] followed by ten upper-case letters or digits, the ASIN is ten
    such characters whatever the page says (the ones of the first such
    place); when the URL holds no such place, the ASIN is the stripped
    ASIN cell of the page. *)
Theorem item_asin_from_url_first
    (json_loads : string -> option Json.value) (response : Response) (w : World) :
  exists item w',
    parse_product json_loads response w = Ok item w' /\
    (forall pre a post,
        url response = pre ++ "/dp/" ++ a ++ post ->
        String.length a = 10 ->
        all_chars is_asin_char a = true ->
        String.length (asin item) = 10 /\
        all_chars is_asin_char (asin item) = true /\
        (search_dp_asin pre = None -> asin item = a)) /\
    ((forall pre a post,
         url response = pre ++ "/dp/" ++ a ++ post ->
         String.length a = 10 ->
         all_chars is_asin_char a = false) ->
     asin item = extract response q_asin).
Proof.
  destruct (parse_product_returns json_loads response w)
    as (item & Hrun & Ha & _).
  exists item. eexists. split; [exact Hrun|]. rewrite Ha. split.
  - intros pre a post Hurl Hlen Hall.
    destruct (search_dp_asin_complete pre a post Hlen Hall) as [[found Hfound] Hfirst].
    rewrite Hurl, Hfound.
    rewrite <- Hurl in Hfound.
    destruct (search_dp_asin_sound _ _ Hfound) as (Hl & Hc & _).
    split; [exact Hl|]. split; [exact Hc|].
    intros Hnone. specialize (Hfirst Hnone).
    rewrite <- Hurl in Hfirst. congruence.
  - intros Hnowhere.
    destruct (search_dp_asin (url response)) as [x|] eqn:Hx; [|reflexivity].
    destruct (search_dp_asin_sound _ _ Hx) as (Hl & Hc & pre & post & Hurl).
    rewrite (Hnowhere pre x post Hurl Hl) in Hc. discriminate.
Qed.

Lemma item_asin_from_url_first_witness :
  exists item w',
    parse_product Samples.reject_all
      {| url := "https://www.amazon.com/Laptop/dp/B08N5WRWNW/ref=sr_1_3";
         urljoin := fun rel => Some rel;
         css := fun _ => [];
         css_get := fun _ => None;
         css_getall := fun _ => [];
         xpath_get := fun _ => Some "B000000000";
         xpath_re_first := fun _ _ => None |}
      (init_world Samples.zero_draws) = Ok item w' /\
    asin item = "B08N5WRWNW".
Proof.
  destruct (item_asin_from_url_first Samples.reject_all
              {| url := "https://www.amazon.com/Laptop/dp/B08N5WRWNW/ref=sr_1_3";
                 urljoin := fun rel => Some rel;
                 css := fun _ => [];
                 css_get := fun _ => None;
                 css_getall := fun _ => [];
                 xpath_get := fun _ => Some "B000000000";
                 xpath_re_first := fun _ _ => None |}
              (init_world Samples.zero_draws))
    as (item & w' & Hrun & Hurl & _).
  exists item, w'. split; [exact Hrun|].
  exact (proj2 (proj2 (Hurl "https://www.amazon.com/Laptop" "B08N5WRWNW" "/ref=sr_1_3"
                         eq_refl eq_refl eq_refl)) eq_refl).
Defined.

(** ** The images of an item *)

Lemma product_images_decoded (json_loads : string -> option Json.value)
    (response : Response) (raw : string) (data : Json.value) :
  xpath_re_first response q_image_script re_color_images = Some raw ->
  raw <> EmptyString ->
  json_loads raw = Some data ->
  product_images json_loads response = default [] (large_images data).
Proof.
  intros Hraw Hne Hdata. unfold product_images. rewrite Hraw.
  simpl. apply truthy_nonempty in Hne. rewrite Hne, Hdata.
  simpl. now destruct (large_images data).
Qed.

(** X4. The images of an item are all or nothing: when the decoded data
    is an object whose [initial] is a list, the images are the [large]
    members of its elements, in order, if every element is an object
    that has one; a single element without it leaves no image at all. *)
Theorem item_images_all_or_nothing
    (json_loads : string -> option Json.value) (response : Response) (w : World)
    (raw : string) (members : list (string * Json.value)) (items : list Json.value) :
  xpath_re_first response q_image_script re_color_images = Some raw ->
  raw <> EmptyString ->
  json_loads raw = Some (Json.JObj members) ->
  Json.assoc "initial" members = Some (Json.JArr items) ->
  exists item w',
    parse_product json_loads response w = Ok item w' /\
    (forall larges,
        Forall2 (fun i l => Json.subscript "large" i = Some l) items larges ->
        images item = larges) /\
    (Exists (fun i => Json.subscript "large" i = None) items ->
     images item = []).
Proof.
  intros Hraw Hne Hdata Hinit.
  destruct (parse_product_returns json_loads response w)
    as (item & Hrun & _ & _ & _ & _ & _ & _ & _ & Himg & _).
  exists item. eexists. split; [exact Hrun|].
  rewrite Himg, (product_images_decoded _ _ _ _ Hraw Hne Hdata).
  unfold large_images. cbn [Json.get_or_empty]. rewrite Hinit.
  cbn [mbind option_bind Json.iterate]. split.
  - intros larges Hall. apply mapM_Some in Hall. now rewrite Hall.
  - intros Hbad. apply mapM_None in Hbad. now rewrite Hbad.
Qed.

Lemma item_images_all_or_nothing_witness :
  exists item w',
    parse_product
      (fun _ => Some (Json.JObj
                        [("initial",
                          Json.JArr [Json.JObj [("large", Json.JStr "a.jpg")];
                                     Json.JObj [("hiRes", Json.JNull);
                                                ("large", Json.JStr "b.jpg")]])]))
      (Samples.bare_product_page (Some "{...}"))
      (init_world Samples.zero_draws) = Ok item w' /\
    images item = [Json.JStr "a.jpg"; Json.JStr "b.jpg"].
Proof.
  destruct (item_images_all_or_nothing
              (fun _ => Some (Json.JObj
                        [("initial",
                          Json.JArr [Json.JObj [("large", Json.JStr "a.jpg")];
                                     Json.JObj [("hiRes", Json.JNull);
                                                ("large", Json.JStr "b.jpg")]])]))
              (Samples.bare_product_page (Some "{...}"))
              (init_world Samples.zero_draws)
              "{...}" _ _ eq_refl ltac:(discriminate) eq_refl eq_refl)
    as (item & w' & Hrun & Hall & _).
  exists item, w'. split; [exact Hrun|].
  apply Hall. repeat constructor.
Defined.

Lemma strings_have_no_large {A} (f : A -> string) (l : list A) (r : list Json.value) :
  mapM (Json.subscript "large") (map (fun x => Json.JStr (f x)) l) = Some r ->
  r = [].
Proof.
  destruct l as [|x l]; simpl.
  - now intros [= <-].
  - discriminate.
Qed.

(** Closes a goal whose premise says that an empty list is not empty. *)
Ltac no_images := let H := fresh "H" in intros H; simpl in H; congruence.

(** X5. An item has images only in one case: the image script was found,
    its text decoded to an object whose [initial] is a list, and every
    element of that list is an object with a [large] member; the images
    are then exactly those members, in order. *)
Theorem item_images_only_when_well_formed
    (json_loads : string -> option Json.value) (response : Response) (w : World) :
  exists item w',
    parse_product json_loads response w = Ok item w' /\
    (images item <> [] ->
     exists raw members items,
       xpath_re_first response q_image_script re_color_images = Some raw /\
       json_loads raw = Some (Json.JObj members) /\
       Json.assoc "initial" members = Some (Json.JArr items) /\
       Forall2 (fun i l => Json.subscript "large" i = Some l) items (images item)).
Proof.
  destruct (parse_product_returns json_loads response w)
    as (item & Hrun & _ & _ & _ & _ & _ & _ & _ & Himg & _).
  exists item. eexists. split; [exact Hrun|].
  rewrite Himg. unfold product_images.
  destruct (xpath_re_first response q_image_script re_color_images) as [raw|];
    [|no_images].
  simpl. destruct (truthy raw); [|no_images].
  destruct (json_loads raw) as [data|] eqn:Hdata; [|no_images].
  simpl. unfold large_images.
  destruct data as [| | | |xs|members]; simpl; try (no_images).
  destruct (Json.assoc "initial" members) as [initial|] eqn:Hinit; simpl;
    [|no_images].
  destruct initial as [| | |s|items|kvs]; simpl; try (no_images).
  - destruct (mapM (Json.subscript "large")
                (map (fun c => Json.JStr (String c EmptyString))
                     (list_ascii_of_string s))) as [r|] eqn:Hr;
      [|no_images].
    apply strings_have_no_large in Hr. subst r. no_images.
  - destruct (mapM (Json.subscript "large") items) as [larges|] eqn:Hl;
      [|no_images].
    intros _. exists raw, members, items.
    split; [reflexivity|]. split; [exact Hdata|]. split; [exact Hinit|].
    now apply mapM_Some.
  - destruct (mapM (Json.subscript "large")
                (map (fun kv => Json.JStr (fst kv)) kvs)) as [r|] eqn:Hr;
      [|no_images].
    apply strings_have_no_large in Hr. subst r. no_images.
Qed.

Lemma item_images_only_when_well_formed_witness :
  exists item w',
    parse_product (fun _ => Some (Json.JObj [("initial", Json.JStr "a.jpg")]))
      (Samples.bare_product_page (Some "{...}"))
      (init_world Samples.zero_draws) = Ok item w' /\
    images item = [].
Proof.
  destruct (item_images_only_when_well_formed
              (fun _ => Some (Json.JObj [("initial", Json.JStr "a.jpg")]))
              (Samples.bare_product_page (Some "{...}"))
              (init_world Samples.zero_draws))
    as (item & w' & Hrun & Honly).
  exists item, w'. split; [exact Hrun|].
  destruct (images item) as [|i rest] eqn:Hi; [reflexivity|].
  destruct (Honly ltac:(discriminate)) as (raw & members & items & Hraw & Hd & Hin & _).
  injection Hd as <-. discriminate Hin.
Defined.

(** ** The draws behind the rotation *)

Lemma map_nth_seq {A} (l : list A) (d : A) :
  map (fun k => nth k l d) (seq 0 (length l)) = l.
Proof.
  induction l as [|x l IH]; [reflexivity|].
  simpl. f_equal. rewrite <- seq_shift, map_map. exact IH.
Qed.

Lemma product_requests_agents (response : Response) (urls : list string) :
  forall g : nat -> string,
    map (fun r => req_headers r !! "User-Agent")
        (imap (fun k u => product_request response (g k) u) urls)
    = map (fun k => Some (g k)) (seq 0 (length urls)).
Proof.
  induction urls as [|u rest IH]; intros g; [reflexivity|].
  cbn [imap length seq map]. f_equal.
  rewrite <- seq_shift, map_map. exact (IH (fun k => g (S k))).
Qed.

(** The user agents of the requests [parse] makes, draw by draw, when
    every link is kept. *)
Lemma parse_user_agents (Request_url : string -> option string)
    (self : Instance) (response : Response) (w : World) (urls nexts : list string) :
  cls_USER_AGENTS (self_class self) <> [] ->
  Forall2 (fun link u => held_url Request_url response link = Some u)
          (product_links response) urls ->
  Forall2 (fun link u => held_url Request_url response link = Some u)
          (match next_page_link response with Some n => [n] | None => [] end)
          nexts ->
  exists w' reqs,
    parse Request_url self response w = Ok tt w' /\
    total_items w' = total_items w /\
    (forall i, rng w' i = rng w (length reqs + i)) /\
    scheduled w' = (scheduled w ++ reqs)%list /\
    reqs =
      (imap (fun k u =>
               product_request response
                 (pick (cls_USER_AGENTS (self_class self)) (rng w k)) u) urls
       ++ map (next_page_request response
                 (pick (cls_USER_AGENTS (self_class self)) (rng w (length urls))))
              nexts)%list /\
    map (fun r => req_headers r !! "User-Agent") reqs =
      map (fun k => Some (pick (cls_USER_AGENTS (self_class self)) (rng w k)))
          (seq 0 (length reqs)).
Proof.
  intros Hpool Hurls Hnexts.
  destruct (parse_held Request_url self response w urls nexts Hpool Hurls Hnexts)
    as (w' & Hrun & Htot & Hrng & Hsched).
  eexists w', _. split; [exact Hrun|]. split; [exact Htot|].
  assert (Hlen : length
                   (imap (fun k u =>
                            product_request response
                              (pick (cls_USER_AGENTS (self_class self)) (rng w k)) u)
                         urls
                    ++ map (next_page_request response
                              (pick (cls_USER_AGENTS (self_class self))
                                    (rng w (length urls)))) nexts)
                 = length urls + length nexts).
  { now rewrite length_app, length_imap, length_map. }
  split; [intros i; rewrite Hlen; apply Hrng|].
  split; [exact Hsched|]. split; [reflexivity|].
  rewrite Hlen, map_app, product_requests_agents, seq_app, map_app. f_equal.
  assert (Hone : length nexts <= 1).
  { apply Forall2_length in Hnexts. rewrite <- Hnexts.
    destruct (next_page_link response); simpl; lia. }
  destruct nexts as [|n1 [|n2 rest]]; simpl in *; [reflexivity| |lia].
  reflexivity.
Qed.

(** X6. When every link of the page joins to a URL the request class
    keeps, [parse] spends exactly one draw of the random stream on each
    request it makes, in the order it makes them: request number [k] has
    the user agent the [k]-th draw selects and the URL the request class
    keeps for its link, the product requests carry the page URL as
    referer and the next-page request an empty [meta], the item count is
    untouched, and the stream left behind is the old one without the
    draws spent. *)
Theorem parse_spends_one_draw_per_request
    (Request_url : string -> option string)
    (self : Instance) (response : Response) (w : World) (urls nexts : list string) :
  cls_USER_AGENTS (self_class self) <> [] ->
  Forall2 (fun link u => held_url Request_url response link = Some u)
          (product_links response) urls ->
  Forall2 (fun link u => held_url Request_url response link = Some u)
          (match next_page_link response with Some n => [n] | None => [] end)
          nexts ->
  let pool := cls_USER_AGENTS (self_class self) in
  exists w',
    parse Request_url self response w = Ok tt w' /\
    total_items w' = total_items w /\
    (forall i, rng w' i = rng w (length urls + length nexts + i)) /\
    scheduled w' =
      (scheduled w
       ++ imap (fun k u =>
                  {| req_url := u;
                     req_headers := {[ "User-Agent" := pick pool (rng w k) ]};
                     req_meta := {[ "referer" := url response ]};
                     req_callback := h_parse_product;
                     req_errback := h_errback |}) urls
       ++ map (fun u =>
                 {| req_url := u;
                    req_headers :=
                      {[ "User-Agent" := pick pool (rng w (length urls)) ]};
                    req_meta := ∅;
                    req_callback := h_parse;
                    req_errback := h_errback |}) nexts)%list.
Proof.
  intros Hpool Hurls Hnexts. cbv zeta.
  destruct (parse_held Request_url self response w urls nexts Hpool Hurls Hnexts)
    as (w' & Hrun & Htot & Hrng & Hsched).
  exists w'. split; [exact Hrun|]. split; [exact Htot|].
  split; [exact Hrng | exact Hsched].
Qed.

Lemma parse_spends_one_draw_per_request_witness :
  exists w',
    parse Samples.strict_request Samples.plain_spider
      (Samples.search_page [Some "/dp/A"; None; Some "/dp/B"] (Some "/s?page=2"))
      (init_world (fun k => k + 1)) = Ok tt w' /\
    map (fun r => (req_url r, req_headers r !! "User-Agent")) (scheduled w')
    = [ ("https://www.amazon.com/dp/A", nth_error USER_AGENTS 1);
        ("https://www.amazon.com/dp/B", nth_error USER_AGENTS 2);
        ("https://www.amazon.com/s?page=2", nth_error USER_AGENTS 0) ] /\
    rng w' 0 = 4.
Proof.
  destruct (parse_spends_one_draw_per_request Samples.strict_request
              Samples.plain_spider
              (Samples.search_page [Some "/dp/A"; None; Some "/dp/B"] (Some "/s?page=2"))
              (init_world (fun k => k + 1))
              ["https://www.amazon.com/dp/A"; "https://www.amazon.com/dp/B"]
              ["https://www.amazon.com/s?page=2"]
              ltac:(discriminate)
              ltac:(repeat constructor) ltac:(repeat constructor))
    as (w' & Hrun & _ & Hrng & Hsched).
  exists w'. split; [exact Hrun|]. rewrite Hsched, (Hrng 0).
  split; reflexivity.
Defined.







(** ** An empty list of user agents *)

Lemma parse_blocks_without_agents (Request_url : string -> option string)
    (self : Instance) (response : Response)
    (blocks : list Selector) (w : World) :
  cls_USER_AGENTS (self_class self) = [] ->
  for_each (parse_block Request_url self response) blocks w =
    match omap (fun b => link_of (block_href b)) blocks with
    | [] => Ok tt w
    | link :: _ =>
        Raise (match urljoin response link with
               | Some _ => IndexError
               | None => ValueError
               end) w
    end.
Proof.
  intros Hempty. induction blocks as [|block rest IH]; [reflexivity|].
  simpl for_each. unfold bind. cbn [omap list_omap].
  destruct (link_of (block_href block)) as [link|] eqn:Hlink.
  - unfold parse_block, block_href, link_of, truthy_opt in *.
    destruct (sel_css_get block q_block_href) as [s|]; [|discriminate].
    destruct (truthy s); [|discriminate].
    injection Hlink as ->. simpl. unfold bind, or_value_error.
    destruct (urljoin response link); [|reflexivity].
    rewrite Hempty. reflexivity.
  - rewrite (parse_block_skip Request_url self response block w Hlink). exact IH.
Qed.

(** X8. With an empty list of user agents no request can be made, and
    the state is left as it was.  [start_requests] raises [IndexError]
    unless there is no start URL.  [parse] returns normally only on a
    page without any link; otherwise it stops at its first link, with
    [ValueError] when that href does not join to the page URL and with
    [IndexError], from the draw of the user agent, when it does. *)
Theorem empty_user_agents_raise_at_first_request
    (Request_url : string -> option string)
    (self : Instance) (response : Response) (w : World) :
  cls_USER_AGENTS (self_class self) = [] ->
  start_requests self w =
    match cls_start_urls (self_class self) with
    | [] => Ok tt w
    | _ :: _ => Raise IndexError w
    end /\
  parse Request_url self response w =
    match product_links response, next_page_link response with
    | [], None => Ok tt w
    | link :: _, _ | [], Some link =>
        Raise (match urljoin response link with
               | Some _ => IndexError
               | None => ValueError
               end) w
    end.
Proof.
  intros Hempty. split.
  - unfold start_requests.
    destruct (cls_start_urls (self_class self)) as [|url rest]; [reflexivity|].
    simpl. unfold bind, seed_request, bind. rewrite Hempty. reflexivity.
  - unfold parse, bind.
    rewrite (parse_blocks_without_agents Request_url self response _ w Hempty).
    unfold product_links, result_blocks.
    destruct (omap (fun b => link_of (block_href b)) (css response q_result_blocks));
      [|reflexivity].
    unfold next_page_link, link_of, truthy_opt.
    destruct (css_get response q_next_page) as [s|]; [|reflexivity].
    destruct (truthy s); [|reflexivity].
    simpl. unfold bind, or_value_error.
    destruct (urljoin response s); [|reflexivity].
    rewrite Hempty. reflexivity.
Qed.

Lemma empty_user_agents_raise_at_first_request_witness :
  start_requests (spider_of [] [] ["https://www.amazon.com/s?k=laptops"])
    (init_world Samples.zero_draws)
  = Raise IndexError (init_world Samples.zero_draws) /\
  parse Samples.strict_request (spider_of [] [] ["https://www.amazon.com/s?k=laptops"])
    (Samples.search_page [None; Some "/dp/A"] None) (init_world Samples.zero_draws)
  = Raise IndexError (init_world Samples.zero_draws) /\
  parse Samples.strict_request (spider_of [] [] ["https://www.amazon.com/s?k=laptops"])
    (Samples.search_page [Some "//["; Some "/dp/A"] None)
    (init_world Samples.zero_draws)
  = Raise ValueError (init_world Samples.zero_draws).
Proof.
  split; [|split].
  - exact (proj1 (empty_user_agents_raise_at_first_request Samples.strict_request
                    (spider_of [] [] ["https://www.amazon.com/s?k=laptops"])
                    (Samples.search_page [] None)
                    (init_world Samples.zero_draws) eq_refl)).
  - exact (proj2 (empty_user_agents_raise_at_first_request Samples.strict_request
                    (spider_of [] [] ["https://www.amazon.com/s?k=laptops"])
                    (Samples.search_page [None; Some "/dp/A"] None)
                    (init_world Samples.zero_draws) eq_refl)).
  - exact (proj2 (empty_user_agents_raise_at_first_request Samples.strict_request
                    (spider_of [] [] ["https://www.amazon.com/s?k=laptops"])
                    (Samples.search_page [Some "//["; Some "/dp/A"] None)
                    (init_world Samples.zero_draws) eq_refl)).
Defined.

(** ** A whole run *)

Lemma start_requests_only_yields (self : Instance) :
  only_yields (fun _ => True) (start_requests self).
Proof.
  apply only_yields_for_each. intros url. unfold seed_request.
  apply only_yields_choice. intros ua _.
  apply only_yields_bind; [|intros meta; now apply only_yields_yield].
  destruct (cls_PROXIES (self_class self)); [apply only_yields_ret|].
  apply only_yields_choice. intros proxy _. apply only_yields_ret.
Qed.

Lemma parse_only_yields (Request_url : string -> option string)
    (self : Instance) (response : Response) :
  only_yields (fun _ => True) (parse Request_url self response).
Proof.
  intros w.
  destruct (parse_requests_rotation Request_url self response w)
    as (reqs & _ & Ht & Hs & He).
  exists reqs. split; [now apply Forall_forall|]. auto.
Qed.

(** What one call of the engine does to the count and to the items. *)
Lemma invoke_counts (Request_url : string -> option string)
    (json_loads : string -> option Json.value)
    (self : Instance) (c : Call) (w : World) :
  match invoke Request_url json_loads self c w with
  | Ok items w' =>
      total_items w' = total_items w + length items /\
      length items = (if is_product_call c then 1 else 0)
  | Raise e w' =>
      total_items w' = total_items w /\ (e = IndexError \/ e = ValueError)
  end.
Proof.
  assert (Hquiet : forall m : M unit,
             only_yields (fun _ => True) m ->
             match bind m (fun _ => ret ([] : list Item)) w with
             | Ok items w' =>
                 total_items w' = total_items w + length items /\ length items = 0
             | Raise e w' =>
                 total_items w' = total_items w /\ (e = IndexError \/ e = ValueError)
             end).
  { intros m Hm. unfold bind. destruct (Hm w) as (reqs & _ & Ht & _ & He).
    destruct (m w) as [u w'|e w']; simpl in *.
    - split; [lia | reflexivity].
    - split; [exact Ht|]. destruct He as [He|[He|He]]; [discriminate| |];
        injection He as ->; auto. }
  destruct c as [|response|response|failed]; simpl.
  - apply Hquiet, start_requests_only_yields.
  - apply Hquiet, parse_only_yields.
  - unfold bind. simpl. split; [lia | reflexivity].
  - unfold bind. simpl. split; [lia | reflexivity].
Qed.

(** X9. For any sequence of calls the engine makes on the spider, from
    any state: when no call raises, the items returned are as many as the
    product pages parsed and [total_items] has grown by exactly that
    number (search pages, seed requests and failures add nothing), and
    the close handler then raises [CloseSpider] exactly when
    [total_items] is still 0; a call raises nothing but [IndexError] or
    [ValueError], and [total_items] has then grown by at most the number
    of product pages. *)
Theorem run_fails_exactly_without_product_page
    (Request_url : string -> option string)
    (json_loads : string -> option Json.value) (self : Instance)
    (calls : list Call) (w : World) :
  let parsed := length (List.filter is_product_call calls) in
  match invoke_all Request_url json_loads self calls w with
  | Ok items w' =>
      length items = parsed /\
      total_items w' = total_items w + parsed /\
      lifecycle Request_url json_loads self calls w =
        (if total_items w + parsed =? 0
         then Raise (CloseSpider "No items scraped — stopping spider") w'
         else Ok items w')
  | Raise e w' =>
      (e = IndexError \/ e = ValueError) /\
      total_items w <= total_items w' <= total_items w + parsed
  end.
Proof.
  cbv zeta.
  assert (Hcount : forall calls w,
             match invoke_all Request_url json_loads self calls w with
             | Ok items w' =>
                 length items = length (List.filter is_product_call calls) /\
                 total_items w' = total_items w + length (List.filter is_product_call calls)
             | Raise e w' =>
                 (e = IndexError \/ e = ValueError) /\
                 total_items w <= total_items w'
                   <= total_items w + length (List.filter is_product_call calls)
             end).
  { clear calls w. induction calls as [|c rest IH]; intros w.
    - simpl. split; [reflexivity | lia].
    - cbn [invoke_all]. unfold bind.
      pose proof (invoke_counts Request_url json_loads self c w) as Hc.
      destruct (invoke Request_url json_loads self c w) as [items w1|e w1].
      + destruct Hc as [Ht Hl]. specialize (IH w1).
        destruct (invoke_all Request_url json_loads self rest w1) as [more w2|e w2].
        * destruct IH as [Hl2 Ht2]. simpl.
          rewrite length_app. cbn [List.filter].
          destruct (is_product_call c); simpl; split; lia.
        * destruct IH as [He Hle]. split; [exact He|].
          cbn [List.filter]. destruct (is_product_call c); simpl; lia.
      + destruct Hc as [Ht He]. split; [exact He | lia]. }
  specialize (Hcount calls w). unfold lifecycle, bind.
  destruct (invoke_all Request_url json_loads self calls w) as [items w'|e w'].
  - destruct Hcount as [Hl Ht]. split; [exact Hl|]. split; [exact Ht|].
    unfold spider_closed, bind, read_total_items, raise, ret. rewrite Ht.
    now destruct (total_items w + length (List.filter is_product_call calls)).
  - exact Hcount.
Qed.

(** ** Rotation draws are free *)

Lemma draws_for_agents (pool agents : list string) :
  Forall (fun ua => In ua pool) agents ->
  exists idxs,
    length idxs = length agents /\
    map (fun i => pick pool i) idxs = agents.
Proof.
  induction 1 as [|ua agents Hin _ (idxs & Hlen & Hmap)].
  - exists []. split; reflexivity.
  - destruct (In_nth pool ua EmptyString Hin) as (i & Hi & Hnth).
    exists (i :: idxs). split; [simpl; now rewrite Hlen|].
    simpl. rewrite Hmap. f_equal. unfold pick.
    now rewrite Nat.mod_small.
Qed.

(** X11. The user agents of the requests of one page are chosen freely
    and separately: on a page whose links all join to URLs the request
    class keeps, for any way of giving each request of the page a user
    agent of the list, some random stream makes [parse] build exactly
    these requests, in order, with exactly these user agents. *)
Theorem every_user_agent_assignment_can_be_drawn
    (Request_url : string -> option string)
    (self : Instance) (response : Response) (w : World)
    (urls nexts agents : list string) :
  cls_USER_AGENTS (self_class self) <> [] ->
  Forall2 (fun link u => held_url Request_url response link = Some u)
          (product_links response) urls ->
  Forall2 (fun link u => held_url Request_url response link = Some u)
          (match next_page_link response with Some n => [n] | None => [] end)
          nexts ->
  Forall (fun ua => In ua (cls_USER_AGENTS (self_class self))) agents ->
  length agents = length urls + length nexts ->
  exists draws w' reqs,
    parse Request_url self response (mkWorld draws (total_items w) (scheduled w))
      = Ok tt w' /\
    scheduled w' = (scheduled w ++ reqs)%list /\
    map req_url reqs = (urls ++ nexts)%list /\
    map (fun r => req_headers r !! "User-Agent") reqs = map Some agents.
Proof.
  intros Hpool Hurls Hnexts Hall Hlen.
  destruct (draws_for_agents _ _ Hall) as (idxs & Hlidx & Hmap).
  exists (fun k => nth k idxs 0).
  destruct (parse_user_agents Request_url self response
              (mkWorld (fun k => nth k idxs 0) (total_items w) (scheduled w))
              urls nexts Hpool Hurls Hnexts)
    as (w' & reqs & Hrun & _ & _ & Hsched & Hreqs & Huas).
  exists w', reqs. split; [exact Hrun|]. split; [exact Hsched|].
  assert (Hcount : length reqs = length agents).
  { rewrite Hreqs, length_app, length_imap, length_map. lia. }
  split.
  - rewrite Hreqs, map_app. f_equal.
    + pose proof (proj1 (product_requests_projection response
                           (fun k => pick (cls_USER_AGENTS (self_class self))
                                          (nth k idxs 0)) urls)) as Hp.
      apply (f_equal (map fst)) in Hp. rewrite !map_map in Hp. simpl in Hp.
      now rewrite map_id in Hp.
    + rewrite map_map. simpl. apply map_id.
  - rewrite Huas, Hcount, <- Hlidx. cbn [rng].
    rewrite <- Hmap, map_map.
    rewrite <- (map_nth_seq idxs 0) at 2. rewrite map_map. reflexivity.
Qed.

Lemma every_user_agent_assignment_can_be_drawn_witness :
  exists draws w' reqs,
    parse Samples.strict_request Samples.plain_spider
      (Samples.search_page [Some "/dp/A"; Some "/dp/B"] (Some "/s?page=2"))
      (mkWorld draws 0 []) = Ok tt w' /\
    scheduled w' = reqs /\
    map req_url reqs =
      [ "https://www.amazon.com/dp/A"; "https://www.amazon.com/dp/B";
        "https://www.amazon.com/s?page=2" ] /\
    map (fun r => req_headers r !! "User-Agent") reqs =
      map Some [nth 2 USER_AGENTS EmptyString; nth 2 USER_AGENTS EmptyString;
                nth 0 USER_AGENTS EmptyString].
Proof.
  exact (every_user_agent_assignment_can_be_drawn Samples.strict_request
           Samples.plain_spider
           (Samples.search_page [Some "/dp/A"; Some "/dp/B"] (Some "/s?page=2"))
           (init_world Samples.zero_draws)
           ["https://www.amazon.com/dp/A"; "https://www.amazon.com/dp/B"]
           ["https://www.amazon.com/s?page=2"]
           [nth 2 USER_AGENTS EmptyString; nth 2 USER_AGENTS EmptyString;
            nth 0 USER_AGENTS EmptyString]
           ltac:(discriminate)
           ltac:(repeat constructor) ltac:(repeat constructor)
           ltac:(repeat constructor; simpl; tauto)
           eq_refl).
Defined.
